(** * Pantograph stereo rig: scene builder and capture configurator

    A shallow embedding of the two scripts of the repository,
    [setup_pantograph_scene.py] and [capture_pantograph_data.py].

    Python floats are read as the real numbers they denote ([R]); rounding
    is not modelled.  The USD stage is a finite map from prim paths to
    prims; a prim carries its ordered transform ops and its attributes.
    Calls into the simulator (render products, writer, stepping, closing)
    are recorded as events, in program order, next to the printed lines. *)

From Stdlib Require Import Reals Lra String List.
From stdpp Require Import base option list gmap strings.
Import ListNotations.

#[local] Open Scope string_scope.
#[local] Open Scope list_scope.

(** ** Gf: vectors *)

Module Gf.

Record Vec3d : Type := mkVec3d { vx : R; vy : R; vz : R }.

(** [a - b] on vectors. *)
Definition sub (a b : Vec3d) : Vec3d :=
  mkVec3d (vx a - vx b) (vy a - vy b) (vz a - vz b).

(** [v.GetLength()] *)
Definition GetLength (v : Vec3d) : R :=
  sqrt (vx v * vx v + vy v * vy v + vz v * vz v).

Record Vec2f : Type := mkVec2f { v0 : R; v1 : R }.

End Gf.

(** ** UsdGeom: transform ops, prims, stage *)

Module UsdGeom.

Inductive XformOpType : Type :=
| TypeTranslate
| TypeScale
| TypeRotateXYZ
| TypeOrient
| TypeTransform.

Definition is_translate (t : XformOpType) : bool :=
  match t with TypeTranslate => true | _ => false end.

(** A transform op: its type and the value last [Set] on it, if any. *)
Record XformOp : Type := mkXformOp {
  GetOpType : XformOpType;
  Get : option Gf.Vec3d
}.

Inductive Value : Type :=
| VFloat (r : R)
| VVec2f (v : Gf.Vec2f)
| VToken (s : string)
| VPoints (ps : list (R * R * R))
| VInts (ns : list Z)
| VFloats (rs : list R).

Record Prim : Type := mkPrim {
  typeName : string;
  xformOps : list XformOp;          (* GetOrderedXformOps() *)
  attributes : gmap string Value;
  references : list string
}.

Record Stage : Type := mkStage {
  prims : gmap string Prim;
  upAxis : string;
  metersPerUnit : R
}.

(** [stage.GetPrimAtPath(path)]; [None] is the invalid prim. *)
Definition GetPrimAtPath (stage : Stage) (path : string) : option Prim :=
  prims stage !! path.

Definition IsValid (p : option Prim) : bool :=
  match p with Some _ => true | None => false end.

Definition set_prim (stage : Stage) (path : string) (p : Prim) : Stage :=
  mkStage (<[path := p]> (prims stage)) (upAxis stage) (metersPerUnit stage).

Definition with_ops (p : Prim) (ops : list XformOp) : Prim :=
  mkPrim (typeName p) ops (attributes p) (references p).

Definition with_attr (p : Prim) (name : string) (v : Value) : Prim :=
  mkPrim (typeName p) (xformOps p) (<[name := v]> (attributes p)) (references p).

Definition with_reference (p : Prim) (asset : string) : Prim :=
  mkPrim (typeName p) (xformOps p) (attributes p) (references p ++ [asset]).

(** [op.Set(v)] on the op at position [i] of the ordered ops. *)
Definition set_op (v : Gf.Vec3d) (op : XformOp) : XformOp :=
  mkXformOp (GetOpType op) (Some v).

Definition SetOp (ops : list XformOp) (i : nat) (v : Gf.Vec3d) : list XformOp :=
  alter (set_op v) i ops.

(** [xform.AddTranslateOp()] and [xform.AddRotateXYZOp()]: a fresh op
    at the end of the order; the result is the new order and the
    position of the new op. *)
Definition AddOp (t : XformOpType) (ops : list XformOp) : list XformOp * nat :=
  (ops ++ [mkXformOp t None], length ops).

Definition AddTranslateOp := AddOp TypeTranslate.
Definition AddRotateXYZOp := AddOp TypeRotateXYZ.

End UsdGeom.

Import UsdGeom.

(** ** The scene builder, [setup_pantograph_scene.py] *)

Module SceneBuilder.

#[local] Open Scope R_scope.

Definition USD_PATH : string := "poly_converted.usd".
Definition OUTPUT_SCENE : string := "pantograph_stereo_scene.usd".

(** Stereo camera configuration. *)
Definition BASELINE_M : R := 0.12.
Definition CAMERA_DISTANCE_M : R := 1.5.
Definition IMAGE_WIDTH : R := 1920.
Definition IMAGE_HEIGHT : R := 1080.
Definition HFOV_DEG : R := 90.

(** [np.radians] and [np.tan]. *)
Definition radians (deg : R) : R := deg * PI / 180.

(** [omni.usd.get_context().new_stage()] followed by the stage units:
    metres, Z up. *)
Definition new_stage : Stage := mkStage ∅ "Y" 0.01.

Definition SetStageUpAxis (stage : Stage) (axis : string) : Stage :=
  mkStage (prims stage) axis (metersPerUnit stage).

Definition SetStageMetersPerUnit (stage : Stage) (m : R) : Stage :=
  mkStage (prims stage) (upAxis stage) m.

(** [UsdGeom.<Schema>.Define(stage, path)] and [stage.DefinePrim]: the
    prim at [path] gets the type name; a prim that is not there yet
    starts with no ops, no attributes and no references.  The ancestors
    USD defines along the way (["/World"]) are not recorded. *)
Definition Define (ty : string) (stage : Stage) (path : string) : Stage :=
  set_prim stage path
    match GetPrimAtPath stage path with
    | Some p => mkPrim ty (xformOps p) (attributes p) (references p)
    | None => mkPrim ty [] ∅ []
    end.

(** Edits through a schema handle reach the prim the handle was made for. *)
Definition on_prim (path : string) (f : Prim → Prim) (stage : Stage) : Stage :=
  match GetPrimAtPath stage path with
  | Some p => set_prim stage path (f p)
  | None => stage
  end.

(** [h.AddRotateXYZOp().Set(v)], [h.AddTranslateOp().Set(v)] *)
Definition AddOpSet (t : XformOpType) (v : Gf.Vec3d) (p : Prim) : Prim :=
  let '(ops, i) := AddOp t (xformOps p) in with_ops p (SetOp ops i v).

(** Lines 51-53: the focal length computed from the field of view. *)
Definition focal_length_mm : R :=
  let focal_length_mm := (IMAGE_WIDTH / 2) / tan (radians (HFOV_DEG / 2)) in
  focal_length_mm * 0.0036.

(** Lines 87-91: the catenary samples, appended one per iteration. *)
Definition wire_point (i : nat) : R * R * R :=
  let x := IZR (Z.of_nat i - 10) * 0.3 in
  let z := 1.8 + 0.02 * (x ^ 2) in
  (x, 0, z).

Definition wire_points : list (R * R * R) :=
  fold_left (λ wire_points i, wire_points ++ [wire_point i]) (seq 0 21) [].

(** Lines 33-98, in program order. *)
Definition place_pantograph (stage : Stage) : Stage :=
  let stage := Define "Xform" stage "/World/Pantograph" in
  let stage := on_prim "/World/Pantograph"
                 (AddOpSet TypeRotateXYZ (Gf.mkVec3d 90 0 0)) stage in
  let stage := on_prim "/World/Pantograph"
                 (AddOpSet TypeTranslate (Gf.mkVec3d 0 0 1.5)) stage in
  on_prim "/World/Pantograph" (λ p, with_reference p USD_PATH) stage.

Definition place_rig_root (stage : Stage) : Stage :=
  let stage := Define "Xform" stage "/World/StereoCameraRig" in
  let stage := on_prim "/World/StereoCameraRig"
                 (AddOpSet TypeTranslate (Gf.mkVec3d 0 (- CAMERA_DISTANCE_M) 1.5)) stage in
  on_prim "/World/StereoCameraRig"
    (AddOpSet TypeRotateXYZ (Gf.mkVec3d 90 0 0)) stage.

Definition place_camera (path : string) (offset : R) (stage : Stage) : Stage :=
  let stage := Define "Camera" stage path in
  let stage := on_prim path (AddOpSet TypeTranslate (Gf.mkVec3d offset 0 0)) stage in
  let stage := on_prim path (λ p, with_attr p "horizontalAperture" (VFloat 6.912)) stage in
  let stage := on_prim path (λ p, with_attr p "verticalAperture" (VFloat 3.888)) stage in
  let stage := on_prim path (λ p, with_attr p "focalLength" (VFloat 3.5)) stage in
  on_prim path
    (λ p, with_attr p "clippingRange" (VVec2f (Gf.mkVec2f 0.1 100.0))) stage.

Definition place_ground (stage : Stage) : Stage :=
  let stage := Define "Mesh" stage "/World/Ground" in
  let stage := on_prim "/World/Ground"
    (λ p, with_attr p "points"
            (VPoints [(-10, -10, 0); (10, -10, 0); (10, 10, 0); (-10, 10, 0)])) stage in
  let stage := on_prim "/World/Ground"
    (λ p, with_attr p "faceVertexCounts" (VInts [4%Z])) stage in
  let stage := on_prim "/World/Ground"
    (λ p, with_attr p "faceVertexIndices" (VInts [0%Z; 1%Z; 2%Z; 3%Z])) stage in
  on_prim "/World/Ground" (λ p, with_attr p "normals" (VPoints [(0, 0, 1)])) stage.

Definition place_dome_light (stage : Stage) : Stage :=
  let stage := Define "Xform" stage "/World/DomeLight" in
  let stage := Define "DomeLight" stage "/World/DomeLight/Dome" in
  on_prim "/World/DomeLight/Dome"
    (λ p, with_attr p "inputs:intensity" (VFloat 1000.0)) stage.

Definition place_wire (stage : Stage) : Stage :=
  let stage := Define "BasisCurves" stage "/World/CatenaryWire" in
  let stage := on_prim "/World/CatenaryWire"
    (λ p, with_attr p "points" (VPoints wire_points)) stage in
  let stage := on_prim "/World/CatenaryWire"
    (λ p, with_attr p "curveVertexCounts" (VInts [21%Z])) stage in
  let stage := on_prim "/World/CatenaryWire"
    (λ p, with_attr p "type" (VToken "cubic")) stage in
  let stage := on_prim "/World/CatenaryWire"
    (λ p, with_attr p "basis" (VToken "bspline")) stage in
  on_prim "/World/CatenaryWire"
    (λ p, with_attr p "widths" (VFloats (repeat 0.012 21))) stage.

(** The stage exported to [OUTPUT_SCENE]. *)
Definition scene : Stage :=
  let stage := new_stage in
  let stage := SetStageUpAxis stage "Z" in
  let stage := SetStageMetersPerUnit stage 1.0 in
  let stage := place_pantograph stage in
  let stage := place_rig_root stage in
  let stage := place_camera "/World/StereoCameraRig/LeftCamera" (- BASELINE_M / 2) stage in
  let stage := place_camera "/World/StereoCameraRig/RightCamera" (BASELINE_M / 2) stage in
  let stage := place_ground stage in
  let stage := place_dome_light stage in
  place_wire stage.

(** Lines 106-115: the disparities printed for the stereo matcher. *)
Definition fx_px : R := 3.5 / (6.912 / IMAGE_WIDTH).
Definition d_near : R := (fx_px * BASELINE_M) / 1.0.
Definition d_far : R := (fx_px * BASELINE_M) / 2.0.

(** [cam.GetFocalLengthAttr().Get()] *)
Definition GetFocalLength (stage : Stage) (path : string) : option Value :=
  p ← GetPrimAtPath stage path; attributes p !! "focalLength".

End SceneBuilder.

(** ** The capture configurator, [capture_pantograph_data.py] *)

Module Capture.

#[local] Open Scope R_scope.

Definition SCENE_PATH : string := "pantograph_stereo_scene.usd".
Definition OUTPUT_DIR : string := "captures".
Definition NUM_FRAMES : nat := 30.
Definition RESOLUTION : nat * nat := (1920%nat, 1080%nat).

Definition left_path : string := "/World/StereoCameraRig/LeftCamera".
Definition right_path : string := "/World/StereoCameraRig/RightCamera".

(** The lines the script prints, with the values formatted into them. *)
Inductive Line : Type :=
| WarnNoCameras
| SetBaseline (mm : R)
| RigScale (row : Gf.Vec3d)
| LeftLocalPos (v : option Gf.Vec3d)
| RightLocalPos (v : option Gf.Vec3d)
| PantographWorldPos (v : Gf.Vec3d)
| Frame0CameraWorldPos (l r : Gf.Vec3d)
| Frame0Baseline (mm : R)
| WroteOutputs (dir : string).

(** What the script asks of its collaborators, in program order. *)
Inductive Event : Type :=
| print (l : Line)
| makedirs (dir : string)
| new_layer
| render_product (camera : string) (resolution : nat * nat)
| writer_get (name : string)
| writer_initialize (output_dir : string)
    (rgb distance_to_camera semantic_segmentation : bool)
| writer_attach (render_products : list string)
| orchestrator_step
| app_update
| app_close.

Inductive Exception : Type :=
| RuntimeError (msg : string).

(** The script's ambient state: the global [stage] and what it has
    emitted so far. *)
Record World : Type := mkWorld {
  stage : Stage;
  events : list Event
}.

Inductive Result (A : Type) : Type :=
| Returned (a : A) (w : World)
| Raised (e : Exception) (events : list Event).

Arguments Returned {A} a w.
Arguments Raised {A} e events.

Definition Script (A : Type) : Type := World → Result A.

#[export] Instance Script_ret : MRet Script := λ A a w, Returned a w.

#[export] Instance Script_bind : MBind Script := λ A B f m w,
  match m w with
  | Returned a w' => f a w'
  | Raised e evs => Raised e evs
  end.

Definition raise {A : Type} (e : Exception) : Script A :=
  λ w, Raised e (events w).

Definition emit (e : Event) : Script unit :=
  λ w, Returned tt (mkWorld (stage w) (events w ++ [e])).

Definition get_stage : Script Stage := λ w, Returned (stage w) w.

Definition put_prim (path : string) (p : Prim) : Script unit :=
  λ w, Returned tt (mkWorld (set_prim (stage w) path p) (events w)).

(** [for i in range(n): body i] *)
Fixpoint for_from (start n : nat) (body : nat → Script unit) : Script unit :=
  match n with
  | O => mret tt
  | S n' => body start;; for_from (S start) n' body
  end.

Definition for_range (n : nat) (body : nat → Script unit) : Script unit :=
  for_from 0 n body.

(** Lines 52-56: the position, in the ordered ops, of the first op whose
    type is [TypeTranslate]. *)
Fixpoint find_translate (ops : list XformOp) : option nat :=
  match ops with
  | [] => None
  | op :: ops' =>
      if is_translate (GetOpType op) then Some O
      else S <$> find_translate ops'
  end.

(** Lines 52-58: the found op, or a fresh one added to the prim.  The
    handle of an op is its position in the ordered ops of the prim at
    [path].  The script reaches these lines only with a valid prim; the
    last branch is never taken. *)
Definition get_or_add_translate (path : string) : Script nat :=
  stage ← get_stage;
  match GetPrimAtPath stage path with
  | Some p =>
      match find_translate (xformOps p) with
      | Some i => mret i
      | None =>
          let '(ops, i) := AddTranslateOp (xformOps p) in
          put_prim path (with_ops p ops);; mret i
      end
  | None => mret O
  end.

(** [op.Set(v)] and [op.Get()] through such a handle. *)
Definition op_Set (path : string) (i : nat) (v : Gf.Vec3d) : Script unit :=
  stage ← get_stage;
  match GetPrimAtPath stage path with
  | Some p => put_prim path (with_ops p (SetOp (xformOps p) i v))
  | None => mret tt
  end.

Definition op_Get (path : string) (i : nat) : Script (option Gf.Vec3d) :=
  stage ← get_stage;
  mret (p ← GetPrimAtPath stage path; op ← xformOps p !! i; Get op).

Section Simulator.

(** The simulator's world transforms,
    [UsdGeom.Xformable(prim).ComputeLocalToWorldTransform(0)], read
    through [ExtractTranslation()] and [GetRow3(0)], for a prim that is
    valid.  The rig prim is the parent of the cameras in the namespace,
    so it is valid wherever [setup_stereo_baseline] reads its
    transform. *)
Variable ExtractTranslation : Stage → string → Gf.Vec3d.
Variable GetRow3_0 : Stage → string → Gf.Vec3d.

(** Lines 30-88. *)
Definition setup_stereo_baseline (baseline_m : R) : Script unit :=
  stage ← get_stage;
  let left_prim := GetPrimAtPath stage left_path in
  let right_prim := GetPrimAtPath stage right_path in
  if negb (IsValid left_prim) || negb (IsValid right_prim) then
    emit (print WarnNoCameras)
  else
    let half_base := baseline_m / 2.0 in
    left_op ← get_or_add_translate left_path;
    right_op ← get_or_add_translate right_path;
    op_Set left_path left_op (Gf.mkVec3d (- half_base) 0 0);;
    op_Set right_path right_op (Gf.mkVec3d half_base 0 0);;
    emit (print (SetBaseline (baseline_m * 1000)));;
    stage ← get_stage;
    emit (print (RigScale (GetRow3_0 stage "/World/StereoCameraRig")));;
    l ← op_Get left_path left_op;
    emit (print (LeftLocalPos l));;
    r ← op_Get right_path right_op;
    emit (print (RightLocalPos r));;
    if IsValid (GetPrimAtPath stage "/World/Pantograph") then
      emit (print (PantographWorldPos (ExtractTranslation stage "/World/Pantograph")))
    else mret tt.

(** Lines 92-97. *)
Definition set_semantic_label (prim_path label : string) : Script unit :=
  stage ← get_stage;
  match GetPrimAtPath stage prim_path with
  | None => raise (RuntimeError ("Missing prim at " ++ prim_path)%string)
  | Some prim => put_prim prim_path (with_attr prim "semantics:class" (VToken label))
  end.

(** Lines 136-139: the baseline measured at frame 0. *)
Definition dist (l_pos r_pos : Gf.Vec3d) : R :=
  Gf.GetLength (Gf.sub l_pos r_pos).

(** Lines 132-137, for one camera:
    [UsdGeom.Xformable(stage.GetPrimAtPath(path)).ComputeLocalToWorldTransform(0).ExtractTranslation()].
    Nothing checks [IsValid] here, and the schema of an invalid prim
    raises when it is used. *)
Definition world_pos (path : string) : Script Gf.Vec3d :=
  stage ← get_stage;
  if IsValid (GetPrimAtPath stage path) then mret (ExtractTranslation stage path)
  else raise (RuntimeError "Accessed schema on invalid prim").

(** Lines 130-140. *)
Definition frame0_check : Script unit :=
  l_pos ← world_pos left_path;
  r_pos ← world_pos right_path;
  emit (print (Frame0CameraWorldPos l_pos r_pos));;
  emit (print (Frame0Baseline (dist l_pos r_pos * 1000))).

(** Lines 126-140: one iteration of the capture loop. *)
Definition capture_frame (i : nat) : Script unit :=
  emit orchestrator_step;;
  emit app_update;;
  if Nat.eqb i 0 then frame0_check else mret tt.

(** Lines 103-123: the labels, the render products and the writer. *)
Definition configure_writer : Script unit :=
  emit new_layer;;
  set_semantic_label "/World/Pantograph" "pantograph";;
  set_semantic_label "/World/Ground" "ground";;
  set_semantic_label "/World/CatenaryWire" "catenary";;
  emit (render_product left_path RESOLUTION);;
  emit (render_product right_path RESOLUTION);;
  emit (writer_get "BasicWriter");;
  emit (writer_initialize OUTPUT_DIR true true true);;
  emit (writer_attach [left_path; right_path]).

(** Lines 125-140. *)
Definition capture_loop : Script unit :=
  for_range NUM_FRAMES capture_frame.

(** Lines 142-146. *)
Definition drain_and_close : Script unit :=
  for_range 5 (λ _, emit app_update);;
  emit (print (WroteOutputs OUTPUT_DIR));;
  emit app_close.

(** Lines 27 and 100-146, once the stage is open. *)
Definition capture : Script unit :=
  emit (makedirs OUTPUT_DIR);;
  setup_stereo_baseline 0.12;;
  configure_writer;;
  capture_loop;;
  drain_and_close.

(** The whole script; [opened] is what [ctx.get_stage()] gives after
    [ctx.open_stage(SCENE_PATH)], [None] when the scene did not load. *)
Definition main (opened : option Stage) : Result unit :=
  match opened with
  | None => Raised (RuntimeError ("Failed to open stage at " ++ SCENE_PATH)%string) []
  | Some stage => capture (mkWorld stage [])
  end.

(** What the script reports as a camera's local position: the value of
    the first translate op of the prim (lines 52-56 and 81-82). *)
Definition local_pos (stage : Stage) (path : string) : option Gf.Vec3d :=
  p ← GetPrimAtPath stage path;
  i ← find_translate (xformOps p);
  op ← xformOps p !! i;
  Get op.

End Simulator.

End Capture.

(** ** The operations as the specification words them

    The scripts compute these quantities inline, at fixed parameters.
    The definitions below follow the specification's wording, so that the
    inline code can be compared with them. *)

Module Spec.

#[local] Open Scope R_scope.

(** [sample_catenary]: [num_points] samples, evenly spaced in
    [[-span/2, +span/2]], [y = 0], [z = base + sag * x^2]; fails below
    two samples. *)
Definition catenary_x (span_m : R) (num_points i : nat) : R :=
  - span_m / 2 + INR i * (span_m / (INR num_points - 1)).

Definition catenary_point (span_m : R) (num_points : nat)
    (base_height_m sag_coefficient : R) (i : nat) : R * R * R :=
  let x := catenary_x span_m num_points i in
  (x, 0, base_height_m + sag_coefficient * x ^ 2).

Definition sample_catenary (span_m : R) (num_points : nat)
    (base_height_m sag_coefficient : R) : option (list (R * R * R)) :=
  if Nat.ltb num_points 2 then None
  else Some (map (catenary_point span_m num_points base_height_m sag_coefficient)
               (seq 0 num_points)).

(** [compute_expected_disparity] *)
Definition compute_expected_disparity (focal_length_px baseline_m distance_m : R) : R :=
  (focal_length_px * baseline_m) / distance_m.

(** Modelled from the spec: [verify_baseline], the operation of the Rig
    Placement Validator (section 4.2).  The scripts have no such
    function; the capture script only measures the distance between the
    two camera world positions at frame 0 ([Capture.dist]) and prints
    it. *)
Record BaselineReport : Type := mkBaselineReport {
  ok : bool;
  measured_baseline_m : R;
  delta_m : R
}.

Definition verify_baseline (left_world_pos right_world_pos : Gf.Vec3d)
    (expected_baseline_m tolerance_m : R) : BaselineReport :=
  let measured := Gf.GetLength (Gf.sub left_world_pos right_world_pos) in
  let delta := Rabs (measured - expected_baseline_m) in
  mkBaselineReport (if Rle_dec delta tolerance_m then true else false) measured delta.

(** The default [tolerance_m = 1e-3]. *)
Definition default_tolerance_m : R := 0.001.

End Spec.

(** ** Summaries used in the proofs *)

Module Summary.

Import Capture.

(** Lines 52-58 on one camera: the ordered ops once a translate op is
    there, and the position of the first one. *)
Definition ensure_translate (ops : list XformOp) : list XformOp * nat :=
  match find_translate ops with
  | Some i => (ops, i)
  | None => AddTranslateOp ops
  end.

(** Lines 52-69 on one camera. *)
Definition overwrite_translate (v : Gf.Vec3d) (p : Prim) : Prim :=
  let '(ops, i) := ensure_translate (xformOps p) in
  with_ops p (SetOp ops i v).

(** Lines 30-69 on the stage: nothing when a camera is missing, else
    both cameras overwritten. *)
Definition rebased (baseline_m : R) (stage : Stage) : Stage :=
  match GetPrimAtPath stage left_path, GetPrimAtPath stage right_path with
  | Some left_prim, Some right_prim =>
      let half_base := (baseline_m / 2.0)%R in
      set_prim
        (set_prim stage left_path
           (overwrite_translate (Gf.mkVec3d (- half_base) 0 0) left_prim))
        right_path (overwrite_translate (Gf.mkVec3d half_base 0 0) right_prim)
  | _, _ => stage
  end.

Definition is_print (e : Event) : bool :=
  match e with print _ => true | _ => false end.

Definition is_step (e : Event) : bool :=
  match e with orchestrator_step => true | _ => false end.

(** The events of a run with the printed lines left out, in order. *)
Definition requests (evs : list Event) : list Event :=
  List.filter (λ e, negb (is_print e)) evs.

(** [m] returns from [w], leaves the stage [s'] and adds events whose
    requests are [req]. *)
Definition runs (m : Script unit) (w : World) (s' : Stage) (req : list Event) : Prop :=
  ∃ evs, m w = Returned tt (mkWorld s' (events w ++ evs)) ∧ requests evs = req.

(** Lines 92-97 on the stage, when the prim is there. *)
Definition label_prim (prim_path label : string) (stage : Stage) : Stage :=
  SceneBuilder.on_prim prim_path
    (λ prim, with_attr prim "semantics:class" (VToken label)) stage.

Definition labelled (stage : Stage) : Stage :=
  label_prim "/World/CatenaryWire" "catenary"
    (label_prim "/World/Ground" "ground"
       (label_prim "/World/Pantograph" "pantograph" stage)).

(** The requests a complete session makes of the simulator. *)
Definition session_prologue : list Event :=
  [ makedirs OUTPUT_DIR; new_layer;
    render_product left_path RESOLUTION; render_product right_path RESOLUTION ].

Definition session_writer : list Event :=
  [ writer_get "BasicWriter"; writer_initialize OUTPUT_DIR true true true;
    writer_attach [left_path; right_path] ].

Definition session_frames (n : nat) : list Event :=
  concat (repeat [orchestrator_step; app_update] n).

Definition session_drain : list Event := repeat app_update 5.

(** A simulator in which no ancestor transforms anything: world
    positions are the local ones.  Used to run the script on concrete
    stages. *)
Definition flat_translation (stage : Stage) (path : string) : Gf.Vec3d :=
  default (Gf.mkVec3d 0 0 0) (local_pos stage path).

Definition flat_row0 (stage : Stage) (path : string) : Gf.Vec3d :=
  Gf.mkVec3d 1 0 0.

End Summary.

(** ** The events of a session, written out *)

Module Traces.

Import Capture.
#[local] Open Scope R_scope.

(** Lines 138 and 140: the two lines printed at frame 0. *)
Definition frame0_lines (l_pos r_pos : Gf.Vec3d) : list Event :=
  [ print (Frame0CameraWorldPos l_pos r_pos);
    print (Frame0Baseline (dist l_pos r_pos * 1000)) ].

(** Lines 103-146 when no label is missing: the layer, the render
    products and the writer; the first frame with its two lines; the
    other 29 frames; the 5 updates, the last line and the close. *)
Definition session_events (l_pos r_pos : Gf.Vec3d) : list Event :=
  [ new_layer;
    render_product left_path RESOLUTION; render_product right_path RESOLUTION;
    writer_get "BasicWriter"; writer_initialize OUTPUT_DIR true true true;
    writer_attach [left_path; right_path] ]
  ++ [orchestrator_step; app_update] ++ frame0_lines l_pos r_pos
  ++ concat (repeat [orchestrator_step; app_update] 29)
  ++ repeat app_update 5
  ++ [print (WroteOutputs OUTPUT_DIR); app_close].

(** Lines 71-88: what [setup_stereo_baseline] prints once it has written
    the two offsets. *)
Definition setup_lines (baseline_m : R) (rig_row0 : Gf.Vec3d)
    (pantograph_pos : option Gf.Vec3d) : list Event :=
  [ print (SetBaseline (baseline_m * 1000));
    print (RigScale rig_row0);
    print (LeftLocalPos (Some (Gf.mkVec3d (- (baseline_m / 2.0)) 0 0)));
    print (RightLocalPos (Some (Gf.mkVec3d (baseline_m / 2.0) 0 0))) ]
  ++ match pantograph_pos with
     | Some pos => [print (PantographWorldPos pos)]
     | None => []
     end.

End Traces.

(** ** Small stages to run the scripts on *)

Module Examples.

Import Capture.
#[local] Open Scope R_scope.

Definition bare (ty : string) : Prim := mkPrim ty [] ∅ [].

(** A camera that has a rotation and no translate op. *)
Definition rotated_camera : Prim :=
  mkPrim "Camera" [mkXformOp TypeRotateXYZ (Some (Gf.mkVec3d 0 90 0))] ∅ [].

(** The three prims the capture script labels, and no camera. *)
Definition targets_only : Stage :=
  set_prim
    (set_prim (set_prim SceneBuilder.new_stage "/World/Pantograph" (bare "Xform"))
       "/World/Ground" (bare "Mesh"))
    "/World/CatenaryWire" (bare "BasisCurves").

(** The same with the two cameras. *)
Definition small_rig : Stage :=
  set_prim (set_prim targets_only left_path rotated_camera) right_path rotated_camera.

End Examples.

(** ** The local translation of a prim *)

Module Poses.

Import Capture.
#[local] Open Scope R_scope.






End Poses.

(** ** Facts about the scene builder *)

Module SceneFacts.

Import SceneBuilder.
#[local] Open Scope R_scope.

Lemma radians_45 : radians (HFOV_DEG / 2) = PI / 4.
Proof. unfold radians, HFOV_DEG. lra. Qed.

Lemma focal_length_mm_value : focal_length_mm = 3.456.
Proof.
  unfold focal_length_mm. rewrite radians_45, tan_PI4.
  unfold IMAGE_WIDTH. lra.
Qed.

(** C1.  The focal length the script computes from the field of view
    (lines 51-53) is the specification's formula, 3.456 mm, that is
    [(1920 / 2) / tan (45 degrees) * 3.6e-6] metres; but it is never
    used: the value set on the left and on the right camera is the
    literal 3.5 (lines 60 and 68), which is a different number. *)
Theorem focal_length_computed_but_not_set :
  focal_length_mm / 1000 = (1920 / 2) / tan (radians 45) * 0.0000036 ∧
  focal_length_mm = 3.456 ∧
  GetFocalLength scene "/World/StereoCameraRig/LeftCamera" = Some (VFloat 3.5) ∧
  GetFocalLength scene "/World/StereoCameraRig/RightCamera" = Some (VFloat 3.5) ∧
  3.5 ≠ focal_length_mm.
Proof.
  assert (Ht : tan (radians 45) = 1).
  { replace (radians 45) with (PI / 4) by (unfold radians; lra). apply tan_PI4. }
  rewrite Ht, focal_length_mm_value.
  repeat split; try reflexivity; lra.
Qed.

(** The loop of lines 87-91 appends one sample per index, in order. *)
Lemma wire_points_map : wire_points = map wire_point (seq 0 21).
Proof. reflexivity. Qed.

Lemma INR_21 : INR 21 = 21.
Proof. change 21 with (IZR (Z.of_nat 21)). apply INR_IZR_INZ. Qed.

(** Each sample of the loop is the specification's sample for a span of
    6 m, 21 points, base height 1.8 m and sag coefficient 0.02. *)
Lemma wire_point_catenary (i : nat) :
  wire_point i = Spec.catenary_point 6 21 1.8 0.02 i.
Proof.
  unfold wire_point, Spec.catenary_point, Spec.catenary_x.
  rewrite INR_21, minus_IZR, <- INR_IZR_INZ.
  assert (Hx : (INR i - 10) * 0.3 = - 6 / 2 + INR i * (6 / (21 - 1))) by lra.
  rewrite Hx. reflexivity.
Qed.

Lemma wire_points_catenary :
  Spec.sample_catenary 6 21 1.8 0.02 = Some wire_points.
Proof.
  unfold Spec.sample_catenary. simpl Nat.ltb. cbv iota.
  rewrite wire_points_map. f_equal.
  apply map_ext. intros i. symmetry. apply wire_point_catenary.
Qed.

Lemma catenary_x_last (span_m : R) (n : nat) :
  (2 ≤ n)%nat → Spec.catenary_x span_m n (n - 1) = span_m / 2.
Proof.
  intros Hn. unfold Spec.catenary_x.
  rewrite minus_INR by lia. simpl INR.
  assert (2 <= INR n) by (change 2 with (INR 2); apply le_INR; lia).
  field. lra.
Qed.

Lemma wire_point_0 : wire_point 0 = (-3, 0, 1.98).
Proof.
  unfold wire_point. change (Z.of_nat 0 - 10)%Z with (-10)%Z.
  f_equal; [f_equal |]; lra.
Qed.

Lemma wire_point_10 : wire_point 10 = (0, 0, 1.8).
Proof.
  unfold wire_point. change (Z.of_nat 10 - 10)%Z with 0%Z.
  f_equal; [f_equal |]; lra.
Qed.

Lemma wire_point_20 : wire_point 20 = (3, 0, 1.98).
Proof.
  unfold wire_point. change (Z.of_nat 20 - 10)%Z with 10%Z.
  f_equal; [f_equal |]; lra.
Qed.

(** C6.  [sample_catenary] returns exactly [num_points] points, in index
    order; the x coordinates start at [-span/2], advance by the constant
    step [span / (num_points - 1)] and end at [+span/2]; y is 0 and z is
    [base + sag * x^2].  The wire of the scene builder is the instance
    with span 6, 21 points, base 1.8 and sag 0.02: point 0 has x = -3,
    point 10 has x = 0 and z = 1.8, point 20 has x = 3 and z = 1.98. *)
Theorem sample_catenary_points
    (span_m : R) (num_points : nat) (base_height_m sag_coefficient : R)
    (Hn : (2 ≤ num_points)%nat) :
  (∃ pts : list (R * R * R),
      Spec.sample_catenary span_m num_points base_height_m sag_coefficient = Some pts ∧
      length pts = num_points ∧
      (∀ i, (i < num_points)%nat →
         ∃ x : R,
           pts !! i = Some (x, 0, base_height_m + sag_coefficient * x ^ 2) ∧
           x = - span_m / 2 + INR i * (span_m / (INR num_points - 1)) ∧
           (0 <= span_m → - span_m / 2 <= x <= span_m / 2)) ∧
      (∀ i, (S i < num_points)%nat →
         Spec.catenary_x span_m num_points (S i) - Spec.catenary_x span_m num_points i
         = span_m / (INR num_points - 1)) ∧
      Spec.catenary_x span_m num_points 0 = - span_m / 2 ∧
      Spec.catenary_x span_m num_points (num_points - 1) = span_m / 2) ∧
  Spec.sample_catenary 6 21 1.8 0.02 = Some wire_points ∧
  length wire_points = 21%nat ∧
  (∃ z, wire_points !! 0%nat = Some (-3, 0, z)) ∧
  wire_points !! 10%nat = Some (0, 0, 1.8) ∧
  wire_points !! 20%nat = Some (3, 0, 1.98).
Proof.
  assert (Hn2 : 2 <= INR num_points)
    by (change 2 with (INR 2); apply le_INR; lia).
  split.
  - eexists. split.
    { unfold Spec.sample_catenary.
      destruct (Nat.ltb_spec num_points 2) as [Hlt | _]; [lia | reflexivity]. }
    split; [by rewrite length_map, length_seq |].
    split; [| split; [| split]].
    + intros i Hi. exists (Spec.catenary_x span_m num_points i).
      split; [| split].
      * rewrite list_lookup_fmap, lookup_seq_lt by done. reflexivity.
      * reflexivity.
      * intros Hspan. unfold Spec.catenary_x.
        assert (Hi0 : 0 <= INR i) by apply pos_INR.
        assert (Hi1 : INR i <= INR num_points - 1).
        { replace (INR num_points - 1) with (INR (num_points - 1))
            by (rewrite minus_INR by lia; reflexivity).
          apply le_INR. lia. }
        set (d := INR num_points - 1) in *.
        assert (Hd : 0 < d) by (unfold d; lra).
        assert (Ht : 0 <= INR i / d <= 1).
        { split.
          - apply Rmult_le_pos; [done | left; by apply Rinv_0_lt_compat].
          - apply (Rmult_le_reg_r d); [done |].
            unfold Rdiv. rewrite Rmult_assoc, Rinv_l by lra. lra. }
        replace (INR i * (span_m / d)) with (INR i / d * span_m)
          by (field; lra).
        nra.
    + intros i Hi. unfold Spec.catenary_x. rewrite S_INR. field. lra.
    + unfold Spec.catenary_x. simpl INR. lra.
    + by apply catenary_x_last.
  - split; [apply wire_points_catenary |].
    split; [reflexivity |].
    split; [| split].
    + exists 1.98. rewrite wire_points_map. apply (f_equal Some), wire_point_0.
    + rewrite wire_points_map. apply (f_equal Some), wire_point_10.
    + rewrite wire_points_map. apply (f_equal Some), wire_point_20.
Qed.

(** C6, at the scene builder's own parameters. *)
Lemma sample_catenary_points_witness :
  (2 ≤ 21)%nat ∧ Spec.sample_catenary 6 21 1.8 0.02 = Some wire_points.
Proof.
  split; [lia |].
  apply (sample_catenary_points 6 21 1.8 0.02). lia.
Defined.

Lemma fx_px_value : fx_px = 3.5 / 0.0036.
Proof. unfold fx_px, IMAGE_WIDTH. lra. Qed.

(** C7.  The expected disparity is [focal * baseline / distance];
    doubling the distance halves it.  The two disparities the scene
    builder prints are this quantity at 1 m and at 2 m, and the one at
    2 m is half the one at 1 m. *)
Theorem disparity_halves_with_doubled_distance
    (focal_length_px baseline_m distance_m : R) (Hd : 0 < distance_m) :
  Spec.compute_expected_disparity focal_length_px baseline_m distance_m
    = (focal_length_px * baseline_m) / distance_m ∧
  Spec.compute_expected_disparity focal_length_px baseline_m (2 * distance_m)
    = Spec.compute_expected_disparity focal_length_px baseline_m distance_m / 2 ∧
  d_near = Spec.compute_expected_disparity fx_px BASELINE_M 1 ∧
  d_far = Spec.compute_expected_disparity fx_px BASELINE_M 2 ∧
  d_far = d_near / 2.
Proof.
  unfold Spec.compute_expected_disparity, d_near, d_far.
  split; [reflexivity |].
  split; [field; lra |].
  split; [f_equal; lra |].
  split; [f_equal; lra |].
  lra.
Qed.

(** C7, at the scene builder's focal length and baseline, 1 m away. *)
Lemma disparity_halves_witness :
  0 < 1 ∧
  Spec.compute_expected_disparity fx_px BASELINE_M (2 * 1)
    = Spec.compute_expected_disparity fx_px BASELINE_M 1 / 2.
Proof.
  split; [lra |].
  apply (disparity_halves_with_doubled_distance fx_px BASELINE_M 1). lra.
Defined.

End SceneFacts.

(** ** Facts about the capture configurator *)

Module CaptureFacts.

Import Capture Summary.
#[local] Open Scope R_scope.

(** *** The stage as a store *)

Lemma left_right_distinct : left_path ≠ right_path.
Proof. discriminate. Qed.

Lemma GetPrimAtPath_set_prim_eq (s : Stage) (k : string) (p : Prim) :
  GetPrimAtPath (set_prim s k p) k = Some p.
Proof. unfold GetPrimAtPath, set_prim. simpl. apply lookup_insert_eq. Qed.

Lemma GetPrimAtPath_set_prim_ne (s : Stage) (k k' : string) (p : Prim) :
  k ≠ k' → GetPrimAtPath (set_prim s k p) k' = GetPrimAtPath s k'.
Proof. intros Hne. unfold GetPrimAtPath, set_prim. simpl. by apply lookup_insert_ne. Qed.

Lemma set_prim_twice (s : Stage) (k : string) (p p' : Prim) :
  set_prim (set_prim s k p) k p' = set_prim s k p'.
Proof. unfold set_prim. simpl. by rewrite insert_insert_eq. Qed.

Lemma set_prim_comm (s : Stage) (k k' : string) (p p' : Prim) :
  k ≠ k' → set_prim (set_prim s k p) k' p' = set_prim (set_prim s k' p') k p.
Proof. intros Hne. unfold set_prim. simpl. f_equal. by apply insert_insert_ne. Qed.

Lemma set_prim_same (s : Stage) (k : string) (p : Prim) :
  GetPrimAtPath s k = Some p → set_prim s k p = s.
Proof.
  destruct s as [ps ax mpu]. unfold GetPrimAtPath, set_prim. simpl.
  intros Hp. f_equal. by apply insert_id.
Qed.

Lemma with_ops_same (p : Prim) : with_ops p (xformOps p) = p.
Proof. by destruct p. Qed.

Lemma with_ops_twice (p : Prim) (ops ops' : list XformOp) :
  with_ops (with_ops p ops) ops' = with_ops p ops'.
Proof. reflexivity. Qed.

(** *** Finding and overwriting the translate op *)

Lemma find_translate_lookup (ops : list XformOp) (i : nat) :
  find_translate ops = Some i →
  ∃ op, ops !! i = Some op ∧ is_translate (GetOpType op) = true.
Proof.
  revert i. induction ops as [| op ops IH]; intros i; simpl; [done |].
  destruct (is_translate (GetOpType op)) eqn:Hop.
  - intros [= <-]. by exists op.
  - destruct (find_translate ops) as [j |]; simpl; [| done].
    intros [= <-]. by apply IH.
Qed.


(** [Set] changes the value of an op, not its type, so the search finds
    the same op afterwards. *)
Lemma find_translate_SetOp (ops : list XformOp) (j : nat) (v : Gf.Vec3d) :
  find_translate (SetOp ops j v) = find_translate ops.
Proof.
  unfold SetOp, alter. revert j.
  induction ops as [| op ops IH]; intros j; [done |].
  destruct j as [| j]; simpl.
  - reflexivity.
  - by rewrite IH.
Qed.

Lemma find_translate_added (ops : list XformOp) (x : option Gf.Vec3d) :
  find_translate ops = None →
  find_translate (ops ++ [mkXformOp TypeTranslate x]) = Some (length ops).
Proof.
  induction ops as [| op ops IH]; simpl; [done |].
  destruct (is_translate (GetOpType op)); [done |].
  destruct (find_translate ops); simpl; [done |].
  intros _. by rewrite IH.
Qed.

Lemma ensure_translate_found (ops : list XformOp) :
  find_translate (ensure_translate ops).1 = Some (ensure_translate ops).2.
Proof.
  unfold ensure_translate. destruct (find_translate ops) as [i |] eqn:Hf; simpl.
  - done.
  - by apply find_translate_added.
Qed.

(** Once a translate op is there, looking for one changes nothing. *)
Lemma ensure_translate_again (ops : list XformOp) (i : nat) :
  find_translate ops = Some i → ensure_translate ops = (ops, i).
Proof. intros Hf. unfold ensure_translate. by rewrite Hf. Qed.

Lemma xformOps_overwrite (v : Gf.Vec3d) (p : Prim) :
  xformOps (overwrite_translate v p)
  = SetOp (ensure_translate (xformOps p)).1 (ensure_translate (xformOps p)).2 v.
Proof.
  unfold overwrite_translate. by destruct (ensure_translate (xformOps p)).
Qed.

Lemma overwrite_translate_eq (v : Gf.Vec3d) (p : Prim) :
  overwrite_translate v p
  = with_ops p (SetOp (ensure_translate (xformOps p)).1 (ensure_translate (xformOps p)).2 v).
Proof.
  unfold overwrite_translate. by destruct (ensure_translate (xformOps p)).
Qed.

Lemma find_translate_overwrite (v : Gf.Vec3d) (p : Prim) :
  find_translate (xformOps (overwrite_translate v p))
  = Some (ensure_translate (xformOps p)).2.
Proof.
  rewrite xformOps_overwrite, find_translate_SetOp. apply ensure_translate_found.
Qed.

(** After the overwrite, the first translate op holds the new value. *)
Lemma overwrite_translate_value (v : Gf.Vec3d) (p : Prim) :
  ∃ op, xformOps (overwrite_translate v p) !! (ensure_translate (xformOps p)).2 = Some op
        ∧ Get op = Some v.
Proof.
  rewrite xformOps_overwrite.
  destruct (find_translate_lookup _ _ (ensure_translate_found (xformOps p)))
    as (op & Hop & _).
  exists (set_op v op). split; [| done].
  unfold SetOp. by rewrite list_lookup_alter_eq, Hop.
Qed.

Lemma SetOp_twice (ops : list XformOp) (i : nat) (v v' : Gf.Vec3d) :
  SetOp (SetOp ops i v) i v' = SetOp ops i v'.
Proof.
  unfold SetOp. rewrite list_alter_alter_eq.
  apply list_alter_ext; [| done]. by intros [] _.
Qed.

(** Overwriting twice is overwriting once, and the ordered ops do not
    grow the second time. *)
Lemma overwrite_translate_twice (v v' : Gf.Vec3d) (p : Prim) :
  overwrite_translate v' (overwrite_translate v p) = overwrite_translate v' p.
Proof.
  rewrite (overwrite_translate_eq v' (overwrite_translate v p)).
  rewrite (ensure_translate_again _ _ (find_translate_overwrite v p)). simpl.
  rewrite xformOps_overwrite, SetOp_twice.
  rewrite (overwrite_translate_eq v p), (overwrite_translate_eq v' p).
  reflexivity.
Qed.

Lemma length_SetOp (ops : list XformOp) (i : nat) (v : Gf.Vec3d) :
  length (SetOp ops i v) = length ops.
Proof. apply length_alter. Qed.



(** *** Running the script *)

Section Runs.

Context (ExtractTranslation GetRow3_0 : Stage → string → Gf.Vec3d).

#[local] Abbreviation setup := (setup_stereo_baseline ExtractTranslation GetRow3_0).
#[local] Abbreviation run_capture := (capture ExtractTranslation GetRow3_0).
#[local] Abbreviation run_main := (main ExtractTranslation GetRow3_0).

Lemma bind_run {A B : Type} (m : Script A) (f : A → Script B) (w : World) :
  (m ≫= f) w
  = match m w with
    | Returned a w' => f a w'
    | Raised e evs => Raised e evs
    end.
Proof. reflexivity. Qed.

Lemma get_or_add_translate_run (path : string) (p : Prim) (w : World) :
  GetPrimAtPath (stage w) path = Some p →
  get_or_add_translate path w
  = Returned (ensure_translate (xformOps p)).2
      (mkWorld (set_prim (stage w) path (with_ops p (ensure_translate (xformOps p)).1))
         (events w)).
Proof.
  intros Hp. unfold get_or_add_translate. rewrite bind_run. simpl.
  rewrite Hp. unfold ensure_translate.
  destruct (find_translate (xformOps p)) as [i |]; simpl.
  - rewrite with_ops_same, (set_prim_same _ _ _ Hp). by destruct w.
  - reflexivity.
Qed.

Lemma op_Set_run (path : string) (i : nat) (v : Gf.Vec3d) (p : Prim) (w : World) :
  GetPrimAtPath (stage w) path = Some p →
  op_Set path i v w
  = Returned tt
      (mkWorld (set_prim (stage w) path (with_ops p (SetOp (xformOps p) i v))) (events w)).
Proof. intros Hp. unfold op_Set. rewrite bind_run. simpl. by rewrite Hp. Qed.

Lemma setup_run_missing (baseline_m : R) (w : World) :
  GetPrimAtPath (stage w) left_path = None ∨ GetPrimAtPath (stage w) right_path = None →
  setup baseline_m w = Returned tt (mkWorld (stage w) (events w ++ [print WarnNoCameras])).
Proof.
  intros Hmiss. unfold setup_stereo_baseline. rewrite bind_run. simpl.
  destruct (GetPrimAtPath (stage w) left_path) as [lp |];
    destruct (GetPrimAtPath (stage w) right_path) as [rp |]; simpl; try reflexivity.
  by destruct Hmiss.
Qed.

Lemma rebased_missing (baseline_m : R) (s : Stage) :
  GetPrimAtPath s left_path = None ∨ GetPrimAtPath s right_path = None →
  rebased baseline_m s = s.
Proof.
  intros Hmiss. unfold rebased.
  destruct (GetPrimAtPath s left_path); destruct (GetPrimAtPath s right_path);
    try reflexivity.
  by destruct Hmiss.
Qed.

Lemma rebased_valid (baseline_m : R) (s : Stage) (lp rp : Prim) :
  GetPrimAtPath s left_path = Some lp → GetPrimAtPath s right_path = Some rp →
  rebased baseline_m s
  = set_prim
      (set_prim s left_path
         (overwrite_translate (Gf.mkVec3d (- (baseline_m / 2.0)) 0 0) lp))
      right_path (overwrite_translate (Gf.mkVec3d (baseline_m / 2.0) 0 0) rp).
Proof. intros Hl Hr. unfold rebased. by rewrite Hl, Hr. Qed.

Lemma setup_run_valid (baseline_m : R) (w : World) (lp rp : Prim) :
  GetPrimAtPath (stage w) left_path = Some lp →
  GetPrimAtPath (stage w) right_path = Some rp →
  ∃ evs,
    setup baseline_m w
    = Returned tt (mkWorld (rebased baseline_m (stage w)) (events w ++ evs))
    ∧ forallb is_print evs = true
    ∧ In (print (SetBaseline (baseline_m * 1000))) evs.
Proof.
  intros Hl Hr. rewrite (rebased_valid _ _ _ _ Hl Hr).
  unfold setup_stereo_baseline. rewrite bind_run. unfold get_stage at 1.
  rewrite Hl, Hr. cbn [IsValid negb orb].
  rewrite bind_run, (get_or_add_translate_run _ _ _ Hl).
  rewrite bind_run, (get_or_add_translate_run _ rp).
  2: { cbn [stage]. by rewrite GetPrimAtPath_set_prim_ne by apply left_right_distinct. }
  cbn [stage events].
  rewrite bind_run, (op_Set_run _ _ _ (with_ops lp (ensure_translate (xformOps lp)).1)).
  2: { cbn [stage]. rewrite GetPrimAtPath_set_prim_ne by (symmetry; apply left_right_distinct).
       apply GetPrimAtPath_set_prim_eq. }
  cbn [stage events].
  rewrite bind_run, (op_Set_run _ _ _ (with_ops rp (ensure_translate (xformOps rp)).1)).
  2: { cbn [stage]. rewrite GetPrimAtPath_set_prim_ne by apply left_right_distinct.
       apply GetPrimAtPath_set_prim_eq. }
  cbn [stage events xformOps with_ops].
  rewrite !with_ops_twice, <- !overwrite_translate_eq.
  rewrite (set_prim_comm _ right_path left_path)
    by (symmetry; apply left_right_distinct).
  rewrite !set_prim_twice.
  generalize (set_prim
                (set_prim (stage w) left_path
                   (overwrite_translate (Gf.mkVec3d (- (baseline_m / 2.0)) 0 0) lp))
                right_path
                (overwrite_translate (Gf.mkVec3d (baseline_m / 2.0) 0 0) rp)).
  intros s'.
  cbv [mbind Script_bind emit get_stage op_Get mret Script_ret]. cbn [stage events].
  destruct (IsValid (GetPrimAtPath s' "/World/Pantograph")).
  - eexists. split; [| split].
    + cbn [stage events]. rewrite <- !app_assoc. reflexivity.
    + reflexivity.
    + simpl. by left.
  - eexists. split; [| split].
    + rewrite <- !app_assoc. reflexivity.
    + reflexivity.
    + simpl. by left.
Qed.

(** [setup_stereo_baseline] returns on every stage; it only prints, and
    leaves the stage as [rebased] describes. *)
Lemma setup_run (baseline_m : R) (w : World) :
  ∃ evs,
    setup baseline_m w
    = Returned tt (mkWorld (rebased baseline_m (stage w)) (events w ++ evs))
    ∧ forallb is_print evs = true.
Proof.
  destruct (GetPrimAtPath (stage w) left_path) as [lp |] eqn:Hl;
    [destruct (GetPrimAtPath (stage w) right_path) as [rp |] eqn:Hr |].
  - destruct (setup_run_valid baseline_m w lp rp Hl Hr) as (evs & Hrun & Hpr & _).
    by exists evs.
  - exists [print WarnNoCameras]. split; [| done].
    rewrite rebased_missing by by right. apply setup_run_missing. by right.
  - exists [print WarnNoCameras]. split; [| done].
    rewrite rebased_missing by by left. apply setup_run_missing. by left.
Qed.

(** What [local_pos] reads on the rebased stage. *)
Lemma local_pos_overwritten (s : Stage) (path : string) (v : Gf.Vec3d) (p : Prim) :
  GetPrimAtPath s path = Some (overwrite_translate v p) →
  local_pos s path = Some v.
Proof.
  intros Hp. unfold local_pos. rewrite Hp. simpl.
  rewrite find_translate_overwrite. simpl.
  destruct (overwrite_translate_value v p) as (op & Hop & Hv).
  by rewrite Hop.
Qed.

Lemma local_pos_rebased (baseline_m : R) (s : Stage) :
  is_Some (GetPrimAtPath s left_path) → is_Some (GetPrimAtPath s right_path) →
  local_pos (rebased baseline_m s) left_path
    = Some (Gf.mkVec3d (- (baseline_m / 2)) 0 0) ∧
  local_pos (rebased baseline_m s) right_path
    = Some (Gf.mkVec3d (baseline_m / 2) 0 0).
Proof.
  intros [lp Hl] [rp Hr]. rewrite (rebased_valid _ _ _ _ Hl Hr).
  replace 2.0 with 2 by lra.
  split.
  - eapply local_pos_overwritten.
    rewrite GetPrimAtPath_set_prim_ne by (symmetry; apply left_right_distinct).
    apply GetPrimAtPath_set_prim_eq.
  - eapply local_pos_overwritten. apply GetPrimAtPath_set_prim_eq.
Qed.

Lemma rebased_still_valid (baseline_m : R) (s : Stage) (path : string) :
  is_Some (GetPrimAtPath s path) → is_Some (GetPrimAtPath (rebased baseline_m s) path).
Proof.
  intros Hp. unfold rebased.
  destruct (GetPrimAtPath s left_path) as [lp |]; [| done].
  destruct (GetPrimAtPath s right_path) as [rp |]; [| done].
  unfold GetPrimAtPath, set_prim in *. simpl.
  rewrite !lookup_insert. repeat case_decide; done.
Qed.

(** Rebasing a rebased stage changes nothing. *)
Lemma rebased_twice (baseline_m : R) (s : Stage) :
  rebased baseline_m (rebased baseline_m s) = rebased baseline_m s.
Proof.
  destruct (GetPrimAtPath s left_path) as [lp |] eqn:Hl;
    [destruct (GetPrimAtPath s right_path) as [rp |] eqn:Hr |].
  - rewrite (rebased_valid _ s _ _ Hl Hr).
    erewrite rebased_valid.
    2: { rewrite GetPrimAtPath_set_prim_ne by (symmetry; apply left_right_distinct).
         apply GetPrimAtPath_set_prim_eq. }
    2: { apply GetPrimAtPath_set_prim_eq. }
    rewrite !overwrite_translate_twice.
    rewrite (set_prim_comm _ right_path left_path)
      by (symmetry; apply left_right_distinct).
    by rewrite !set_prim_twice.
  - by rewrite !(rebased_missing _ s) by by right.
  - by rewrite !(rebased_missing _ s) by by left.
Qed.

(** *** Sequencing runs *)

Lemma requests_app (evs evs' : list Event) :
  requests (evs ++ evs') = requests evs ++ requests evs'.
Proof. unfold requests. apply List.filter_app. Qed.

Lemma requests_prints (evs : list Event) :
  forallb is_print evs = true → requests evs = [].
Proof.
  induction evs as [| e evs IH]; simpl; [done |].
  intros [He Hevs]%andb_prop. rewrite He. simpl. by apply IH.
Qed.


Lemma runs_emit (e : Event) (w : World) :
  runs (emit e) w (stage w) (requests [e]).
Proof. exists [e]. by split. Qed.

Lemma runs_seq (m k : Script unit) (w : World) (s1 s2 : Stage) (r1 r2 : list Event) :
  runs m w s1 r1 → (∀ evs, runs k (mkWorld s1 evs) s2 r2) →
  runs (m;; k) w s2 (r1 ++ r2).
Proof.
  intros (evs1 & Hm & Hr1) Hk.
  destruct (Hk (events w ++ evs1)) as (evs2 & Hk2 & Hr2).
  exists (evs1 ++ evs2). split.
  - rewrite bind_run, Hm, Hk2. simpl. by rewrite app_assoc.
  - by rewrite requests_app, Hr1, Hr2.
Qed.

Lemma runs_requests (m : Script unit) (w : World) (s' : Stage) (r r' : list Event) :
  runs m w s' r → r = r' → runs m w s' r'.
Proof. by intros H <-. Qed.

Lemma runs_setup (baseline_m : R) (w : World) :
  runs (setup baseline_m) w (rebased baseline_m (stage w)) [].
Proof.
  destruct (setup_run baseline_m w) as (evs & Hrun & Hpr).
  exists evs. split; [done |]. by apply requests_prints.
Qed.

Lemma set_semantic_label_valid (prim_path label : string) (p : Prim) (w : World) :
  GetPrimAtPath (stage w) prim_path = Some p →
  set_semantic_label prim_path label w
  = Returned tt (mkWorld (label_prim prim_path label (stage w)) (events w)).
Proof.
  intros Hp. unfold set_semantic_label, label_prim, SceneBuilder.on_prim.
  rewrite bind_run. simpl. by rewrite Hp.
Qed.

Lemma set_semantic_label_missing (prim_path label : string) (w : World) :
  GetPrimAtPath (stage w) prim_path = None →
  set_semantic_label prim_path label w
  = Raised (RuntimeError ("Missing prim at " ++ prim_path)%string) (events w).
Proof.
  intros Hp. unfold set_semantic_label. rewrite bind_run. simpl. by rewrite Hp.
Qed.

Lemma runs_set_semantic_label (prim_path label : string) (w : World) :
  is_Some (GetPrimAtPath (stage w) prim_path) →
  runs (set_semantic_label prim_path label) w (label_prim prim_path label (stage w)) [].
Proof.
  intros [p Hp]. exists []. split; [| done].
  rewrite (set_semantic_label_valid _ _ _ _ Hp). by rewrite app_nil_r.
Qed.

(** A label is an attribute: it leaves every prim in place, with its
    ordered ops. *)
Lemma label_prim_still_valid (prim_path label path : string) (s : Stage) :
  is_Some (GetPrimAtPath s path) →
  is_Some (GetPrimAtPath (label_prim prim_path label s) path).
Proof.
  intros Hp. unfold label_prim, SceneBuilder.on_prim.
  destruct (GetPrimAtPath s prim_path) as [q |] eqn:Hq; [| done].
  destruct (decide (prim_path = path)) as [-> | Hne].
  - rewrite GetPrimAtPath_set_prim_eq. by eexists.
  - by rewrite GetPrimAtPath_set_prim_ne.
Qed.

Lemma local_pos_label_prim (prim_path label path : string) (s : Stage) :
  local_pos (label_prim prim_path label s) path = local_pos s path.
Proof.
  unfold label_prim, SceneBuilder.on_prim.
  destruct (GetPrimAtPath s prim_path) as [q |] eqn:Hq; [| done].
  unfold local_pos.
  destruct (decide (prim_path = path)) as [-> | Hne].
  - by rewrite GetPrimAtPath_set_prim_eq, Hq.
  - by rewrite GetPrimAtPath_set_prim_ne.
Qed.

Lemma local_pos_labelled (path : string) (s : Stage) :
  local_pos (labelled s) path = local_pos s path.
Proof. unfold labelled. by rewrite !local_pos_label_prim. Qed.

Lemma runs_for_from (body : nat → Script unit) (req : list Event) :
  (∀ i w, runs (body i) w (stage w) req) →
  ∀ n start w, runs (for_from start n body) w (stage w) (concat (repeat req n)).
Proof.
  intros Hbody n. induction n as [| n IH]; intros start w.
  - exists []. split; [| done]. simpl. unfold mret, Script_ret.
    rewrite app_nil_r. by destruct w.
  - simpl. eapply runs_seq; [apply Hbody |].
    intros evs. apply (IH (S start) (mkWorld (stage w) evs)).
Qed.

Lemma runs_for_from_on (P : Stage → Prop) (body : nat → Script unit) (req : list Event) :
  (∀ i w, P (stage w) → runs (body i) w (stage w) req) →
  ∀ n start w, P (stage w) →
    runs (for_from start n body) w (stage w) (concat (repeat req n)).
Proof.
  intros Hbody n. induction n as [| n IH]; intros start w HP.
  - exists []. split; [| done]. simpl. unfold mret, Script_ret.
    rewrite app_nil_r. by destruct w.
  - simpl. eapply runs_seq; [by apply Hbody |].
    intros evs. by apply (IH (S start) (mkWorld (stage w) evs)).
Qed.

Lemma world_pos_valid (path : string) (w : World) :
  is_Some (GetPrimAtPath (stage w) path) →
  world_pos ExtractTranslation path w = Returned (ExtractTranslation (stage w) path) w.
Proof.
  intros [p Hp]. unfold world_pos. rewrite bind_run. unfold get_stage.
  by rewrite Hp.
Qed.

Lemma world_pos_missing (path : string) (w : World) :
  GetPrimAtPath (stage w) path = None →
  world_pos ExtractTranslation path w
  = Raised (RuntimeError "Accessed schema on invalid prim") (events w).
Proof.
  intros Hp. unfold world_pos. rewrite bind_run. unfold get_stage.
  by rewrite Hp.
Qed.

Lemma runs_capture_frame (i : nat) (w : World) :
  is_Some (GetPrimAtPath (stage w) left_path) →
  is_Some (GetPrimAtPath (stage w) right_path) →
  runs (capture_frame ExtractTranslation i) w (stage w) [orchestrator_step; app_update].
Proof.
  intros Hl Hr. unfold capture_frame.
  eapply runs_requests.
  - eapply runs_seq; [apply runs_emit |]. intros evs1.
    eapply runs_seq; [apply runs_emit |]. intros evs2. cbn [stage].
    destruct (Nat.eqb i 0).
    + unfold frame0_check. eexists. split.
      * rewrite bind_run, world_pos_valid by done.
        rewrite bind_run, world_pos_valid by done.
        cbv [mbind Script_bind emit]. cbn [stage events].
        rewrite <- app_assoc. reflexivity.
      * reflexivity.
    + exists []. split; [| reflexivity].
      unfold mret, Script_ret. cbn [stage events]. by rewrite app_nil_r.
  - reflexivity.
Qed.

Lemma runs_capture_loop (w : World) :
  is_Some (GetPrimAtPath (stage w) left_path) →
  is_Some (GetPrimAtPath (stage w) right_path) →
  runs (capture_loop ExtractTranslation) w (stage w) (session_frames NUM_FRAMES).
Proof.
  intros Hl Hr.
  apply (runs_for_from_on
           (λ s, is_Some (GetPrimAtPath s left_path)
                 ∧ is_Some (GetPrimAtPath s right_path))); [| done].
  intros i w' [Hl' Hr']. by apply runs_capture_frame.
Qed.

Lemma runs_drain_and_close (w : World) :
  runs drain_and_close w (stage w) (session_drain ++ [app_close]).
Proof.
  unfold drain_and_close. eapply runs_requests.
  - eapply runs_seq.
    + apply (runs_for_from (λ _, emit app_update) [app_update]).
      intros _ w'. apply runs_emit.
    + intros evs1. eapply runs_seq; [apply runs_emit |]. intros evs2.
      cbn [stage]. exact (runs_emit app_close (mkWorld (stage w) evs2)).
  - reflexivity.
Qed.

Lemma runs_configure_writer (w : World) :
  is_Some (GetPrimAtPath (stage w) "/World/Pantograph") →
  is_Some (GetPrimAtPath (stage w) "/World/Ground") →
  is_Some (GetPrimAtPath (stage w) "/World/CatenaryWire") →
  runs configure_writer w (labelled (stage w))
    ([new_layer; render_product left_path RESOLUTION;
      render_product right_path RESOLUTION] ++ session_writer).
Proof.
  intros Hp Hg Hc. unfold configure_writer, labelled. eapply runs_requests.
  - eapply runs_seq; [apply runs_emit |]. intros evs1.
    eapply runs_seq; [by apply runs_set_semantic_label |]. intros evs2.
    eapply runs_seq.
    { apply runs_set_semantic_label. cbn [stage]. by apply label_prim_still_valid. }
    intros evs3.
    eapply runs_seq.
    { apply runs_set_semantic_label. cbn [stage].
      by do 2 apply label_prim_still_valid. }
    intros evs4. cbn [stage].
    eapply runs_seq; [apply runs_emit |]. intros evs5.
    eapply runs_seq; [apply runs_emit |]. intros evs6.
    eapply runs_seq; [apply runs_emit |]. intros evs7.
    eapply runs_seq; [apply runs_emit |]. intros evs8. cbn [stage].
    exact (runs_emit _ (mkWorld _ evs8)).
  - reflexivity.
Qed.

Lemma labelled_still_valid (path : string) (s : Stage) :
  is_Some (GetPrimAtPath s path) → is_Some (GetPrimAtPath (labelled s) path).
Proof. intros Hp. unfold labelled. by do 3 apply label_prim_still_valid. Qed.

(** The session after the baseline has been set. *)
Lemma runs_session (w : World) :
  is_Some (GetPrimAtPath (stage w) left_path) →
  is_Some (GetPrimAtPath (stage w) right_path) →
  is_Some (GetPrimAtPath (stage w) "/World/Pantograph") →
  is_Some (GetPrimAtPath (stage w) "/World/Ground") →
  is_Some (GetPrimAtPath (stage w) "/World/CatenaryWire") →
  runs (configure_writer;; capture_loop ExtractTranslation;; drain_and_close) w
    (labelled (stage w))
    ([new_layer; render_product left_path RESOLUTION;
      render_product right_path RESOLUTION]
     ++ session_writer ++ session_frames NUM_FRAMES ++ session_drain ++ [app_close]).
Proof.
  intros Hl Hr Hp Hg Hc. eapply runs_requests.
  - eapply runs_seq; [by apply runs_configure_writer |]. intros evs1.
    eapply runs_seq.
    { apply runs_capture_loop; cbn [stage]; by apply labelled_still_valid. }
    intros evs2. apply runs_drain_and_close.
  - reflexivity.
Qed.

Lemma runs_capture (s : Stage) :
  is_Some (GetPrimAtPath s left_path) →
  is_Some (GetPrimAtPath s right_path) →
  is_Some (GetPrimAtPath s "/World/Pantograph") →
  is_Some (GetPrimAtPath s "/World/Ground") →
  is_Some (GetPrimAtPath s "/World/CatenaryWire") →
  runs run_capture (mkWorld s []) (labelled (rebased 0.12 s))
    (session_prologue ++ session_writer ++ session_frames NUM_FRAMES
     ++ session_drain ++ [app_close]).
Proof.
  intros Hl Hr Hp Hg Hc. unfold capture. eapply runs_requests.
  - eapply runs_seq; [apply runs_emit |]. intros evs1.
    eapply runs_seq; [apply runs_setup |]. intros evs2. cbn [stage].
    apply (runs_session (mkWorld (rebased 0.12 s) evs2));
      cbn [stage]; by apply rebased_still_valid.
  - reflexivity.
Qed.

Lemma steps_of_requests (evs : list Event) :
  List.filter is_step (requests evs) = List.filter is_step evs.
Proof.
  unfold requests. induction evs as [| e evs IH]; [done |].
  destruct e; simpl; by rewrite ?IH.
Qed.

Lemma setup_never_raises (baseline_m : R) (w : World) (e : Exception) (evs : list Event) :
  setup baseline_m w ≠ Raised e evs.
Proof. destruct (setup_run baseline_m w) as (evs' & Hrun & _). by rewrite Hrun. Qed.

(** *** The claims about the capture configurator *)

(** C4, as the code has it.  The baseline is never checked:
    [setup_stereo_baseline] raises for no baseline at all, and on a stage
    with both cameras it writes [-baseline/2] and [+baseline/2] as they
    are, for a negative baseline as for any other (so the left camera
    then sits at a positive x), without clamping; with a baseline of 0
    the two offsets coincide. *)
Theorem baseline_never_rejected
    (baseline_m : R) (s : Stage) (evs : list Event)
    (Hl : is_Some (GetPrimAtPath s left_path))
    (Hr : is_Some (GetPrimAtPath s right_path)) :
  (∀ w e evs', setup baseline_m w ≠ Raised e evs') ∧
  (∃ w',
      setup baseline_m (mkWorld s evs) = Returned tt w' ∧
      local_pos (stage w') left_path = Some (Gf.mkVec3d (- (baseline_m / 2)) 0 0) ∧
      local_pos (stage w') right_path = Some (Gf.mkVec3d (baseline_m / 2) 0 0) ∧
      (baseline_m < 0 → 0 < - (baseline_m / 2)) ∧
      (baseline_m = 0 →
         local_pos (stage w') left_path = local_pos (stage w') right_path)).
Proof.
  split; [intros w e evs'; apply setup_never_raises |].
  destruct (setup_run baseline_m (mkWorld s evs)) as (evs' & Hrun & _).
  destruct (local_pos_rebased baseline_m s Hl Hr) as [Hlp Hrp].
  eexists. split; [exact Hrun |]. cbn [stage].
  split; [exact Hlp |]. split; [exact Hrp |].
  split; [intros Hneg; lra |].
  intros ->. rewrite Hlp, Hrp. do 2 f_equal. lra.
Qed.

(** C5.  For a baseline [b >= 0], the offsets written by
    [setup_stereo_baseline b] are [-b/2] for the left camera and [+b/2]
    for the right one, along x; they sum to 0 and differ by [b].  The
    scene builder places its cameras the same way, at
    [-BASELINE_M / 2] and [BASELINE_M / 2]. *)
Theorem stereo_offsets_symmetric
    (baseline_m : R) (s : Stage) (evs : list Event)
    (Hb : 0 <= baseline_m)
    (Hl : is_Some (GetPrimAtPath s left_path))
    (Hr : is_Some (GetPrimAtPath s right_path)) :
  (∃ w' left_offset right_offset,
      setup baseline_m (mkWorld s evs) = Returned tt w' ∧
      local_pos (stage w') left_path = Some (Gf.mkVec3d left_offset 0 0) ∧
      local_pos (stage w') right_path = Some (Gf.mkVec3d right_offset 0 0) ∧
      left_offset = - baseline_m / 2 ∧
      right_offset = baseline_m / 2 ∧
      left_offset + right_offset = 0 ∧
      right_offset - left_offset = baseline_m) ∧
  local_pos SceneBuilder.scene left_path
    = Some (Gf.mkVec3d (- SceneBuilder.BASELINE_M / 2) 0 0) ∧
  local_pos SceneBuilder.scene right_path
    = Some (Gf.mkVec3d (SceneBuilder.BASELINE_M / 2) 0 0) ∧
  - SceneBuilder.BASELINE_M / 2 + SceneBuilder.BASELINE_M / 2 = 0 ∧
  SceneBuilder.BASELINE_M / 2 - (- SceneBuilder.BASELINE_M / 2) = SceneBuilder.BASELINE_M.
Proof.
  split.
  - destruct (setup_run baseline_m (mkWorld s evs)) as (evs' & Hrun & _).
    destruct (local_pos_rebased baseline_m s Hl Hr) as [Hlp Hrp].
    eexists _, _, _. split; [exact Hrun |]. cbn [stage].
    split; [exact Hlp |]. split; [exact Hrp |].
    repeat split; lra.
  - split; [reflexivity |]. split; [reflexivity |]. split; lra.
Qed.

(** C8.  A scene that did not load is fatal: the script raises.  A
    missing prim is fatal for [set_semantic_label]: it raises.  A missing
    camera is not fatal for [setup_stereo_baseline]: it prints the
    warning, leaves the stage as it is, and returns. *)
Theorem missing_nodes
    (baseline_m : R) (w : World) (prim_path label : string)
    (Hprim : GetPrimAtPath (stage w) prim_path = None)
    (Hcam : GetPrimAtPath (stage w) left_path = None
            ∨ GetPrimAtPath (stage w) right_path = None) :
  run_main None
    = Raised (RuntimeError ("Failed to open stage at " ++ SCENE_PATH)%string) [] ∧
  set_semantic_label prim_path label w
    = Raised (RuntimeError ("Missing prim at " ++ prim_path)%string) (events w) ∧
  setup baseline_m w
    = Returned tt (mkWorld (stage w) (events w ++ [print WarnNoCameras])).
Proof.
  split; [reflexivity |].
  split; [by apply set_semantic_label_missing | by apply setup_run_missing].
Qed.

(** C9.  When the two cameras and the three labelled prims are there,
    the script returns, and the requests it made of the simulator are,
    in this order: the output directory, the layer and the two render
    products; the writer, obtained, initialised and attached once;
    [NUM_FRAMES] = 30 capture steps, each followed by an update; 5 more
    updates; the close.  There are 30 capture steps in all, and none
    among the 5 updates and the close. *)
Theorem capture_session_lifecycle
    (s : Stage)
    (Hl : is_Some (GetPrimAtPath s left_path))
    (Hr : is_Some (GetPrimAtPath s right_path))
    (Hp : is_Some (GetPrimAtPath s "/World/Pantograph"))
    (Hg : is_Some (GetPrimAtPath s "/World/Ground"))
    (Hc : is_Some (GetPrimAtPath s "/World/CatenaryWire")) :
  ∃ w,
    run_main (Some s) = Returned tt w ∧
    requests (events w)
    = [ makedirs OUTPUT_DIR; new_layer;
        render_product left_path RESOLUTION; render_product right_path RESOLUTION;
        writer_get "BasicWriter"; writer_initialize OUTPUT_DIR true true true;
        writer_attach [left_path; right_path] ]
      ++ concat (repeat [orchestrator_step; app_update] NUM_FRAMES)
      ++ repeat app_update 5
      ++ [app_close] ∧
    NUM_FRAMES = 30%nat ∧
    length (List.filter is_step (events w)) = 30%nat ∧
    List.filter is_step (repeat app_update 5 ++ [app_close]) = [].
Proof.
  destruct (runs_capture s Hl Hr Hp Hg Hc) as (evs & Hrun & Hreq).
  eexists. split; [exact Hrun |]. cbn [events app].
  split; [exact Hreq |].
  split; [reflexivity |].
  split; [| reflexivity].
  rewrite <- steps_of_requests, Hreq. reflexivity.
Qed.

(** C10.  On a stage with both cameras, a second
    [setup_stereo_baseline b] finds in each camera the translate op the
    first call left, first among the translate ops, and sets it again:
    the stage after two calls is the stage after one, so no op was added
    and no value changed. *)
Theorem setup_stereo_baseline_idempotent
    (baseline_m : R) (s : Stage) (evs : list Event)
    (Hl : is_Some (GetPrimAtPath s left_path))
    (Hr : is_Some (GetPrimAtPath s right_path)) :
  ∃ w1 w2,
    setup baseline_m (mkWorld s evs) = Returned tt w1 ∧
    setup baseline_m w1 = Returned tt w2 ∧
    stage w2 = stage w1 ∧
    ∀ path, path = left_path ∨ path = right_path →
      ∃ p1 i op,
        GetPrimAtPath (stage w1) path = Some p1 ∧
        find_translate (xformOps p1) = Some i ∧
        xformOps p1 !! i = Some op ∧
        GetPrimAtPath (stage w2) path = Some p1 ∧
        local_pos (stage w2) path = Get op.
Proof.
  destruct (setup_run baseline_m (mkWorld s evs)) as (evs1 & Hrun1 & _).
  destruct (setup_run baseline_m
              (mkWorld (rebased baseline_m s) (events (mkWorld s evs) ++ evs1)))
    as (evs2 & Hrun2 & _).
  cbn [stage events] in *. rewrite rebased_twice in Hrun2.
  eexists _, _. split; [exact Hrun1 |]. split; [exact Hrun2 |].
  cbn [stage]. split; [reflexivity |].
  destruct Hl as [lp Hlp]. destruct Hr as [rp Hrp].
  rewrite (rebased_valid _ _ _ _ Hlp Hrp).
  intros path [-> | ->].
  - destruct (overwrite_translate_value
                (Gf.mkVec3d (- (baseline_m / 2.0)) 0 0) lp) as (op & Hop & Hv).
    eexists _, _, op.
    rewrite GetPrimAtPath_set_prim_ne by (symmetry; apply left_right_distinct).
    rewrite GetPrimAtPath_set_prim_eq.
    split; [reflexivity |]. split; [apply find_translate_overwrite |].
    split; [exact Hop |]. split; [reflexivity |].
    rewrite Hv. eapply local_pos_overwritten.
    rewrite GetPrimAtPath_set_prim_ne by (symmetry; apply left_right_distinct).
    apply GetPrimAtPath_set_prim_eq.
  - destruct (overwrite_translate_value
                (Gf.mkVec3d (baseline_m / 2.0) 0 0) rp) as (op & Hop & Hv).
    eexists _, _, op. rewrite GetPrimAtPath_set_prim_eq.
    split; [reflexivity |]. split; [apply find_translate_overwrite |].
    split; [exact Hop |]. split; [reflexivity |].
    rewrite Hv. eapply local_pos_overwritten. apply GetPrimAtPath_set_prim_eq.
Qed.

End Runs.

(** *** The claims at concrete stages

    The scene is the one the scene builder exports; the simulator is the
    flat one. *)

Lemma is_Some_IsValid (o : option Prim) : IsValid o = true → is_Some o.
Proof. destruct o; [by eexists | done]. Qed.

(** C4 as stated fails: with the negative baseline -0.12 on the exported
    scene, [setup_stereo_baseline] does not raise; it returns, with the
    left camera at x = +0.06 and the right camera at x = -0.06. *)
Lemma negative_baseline_not_rejected :
  -0.12 < 0 ∧
  (¬ ∃ e evs,
       setup_stereo_baseline flat_translation flat_row0 (-0.12)
         (mkWorld SceneBuilder.scene []) = Raised e evs) ∧
  ∃ w,
    setup_stereo_baseline flat_translation flat_row0 (-0.12)
      (mkWorld SceneBuilder.scene []) = Returned tt w ∧
    local_pos (stage w) left_path = Some (Gf.mkVec3d 0.06 0 0) ∧
    local_pos (stage w) right_path = Some (Gf.mkVec3d (-0.06) 0 0).
Proof.
  split; [lra |].
  destruct (setup_run flat_translation flat_row0 (-0.12)
              (mkWorld SceneBuilder.scene [])) as (evs & Hrun & _).
  split.
  - intros (e & evs' & Hraised). by rewrite Hrun in Hraised.
  - eexists. split; [exact Hrun |]. cbn [stage].
    destruct (local_pos_rebased (-0.12) SceneBuilder.scene) as [Hlp Hrp];
      [apply is_Some_IsValid; reflexivity | apply is_Some_IsValid; reflexivity |].
    rewrite Hlp, Hrp. split; do 2 f_equal; lra.
Qed.

(** C4 as the code has it, on the exported scene with the baseline -0.12. *)
Lemma baseline_never_rejected_witness :
  is_Some (GetPrimAtPath SceneBuilder.scene left_path) ∧
  is_Some (GetPrimAtPath SceneBuilder.scene right_path) ∧
  ∃ w',
    setup_stereo_baseline flat_translation flat_row0 (-0.12)
      (mkWorld SceneBuilder.scene []) = Returned tt w' ∧
    local_pos (stage w') left_path = Some (Gf.mkVec3d (- (-0.12 / 2)) 0 0) ∧
    local_pos (stage w') right_path = Some (Gf.mkVec3d (-0.12 / 2) 0 0) ∧
    (-0.12 < 0 → 0 < - (-0.12 / 2)) ∧
    (-0.12 = 0 → local_pos (stage w') left_path = local_pos (stage w') right_path).
Proof.
  assert (H1 : is_Some (GetPrimAtPath SceneBuilder.scene left_path))
    by (apply is_Some_IsValid; reflexivity).
  assert (H2 : is_Some (GetPrimAtPath SceneBuilder.scene right_path))
    by (apply is_Some_IsValid; reflexivity).
  repeat (split; [assumption |]).
  exact (proj2 (baseline_never_rejected flat_translation flat_row0
                  (-0.12) SceneBuilder.scene [] H1 H2)).
Defined.

(** C5, on the exported scene with the script's baseline. *)
Lemma stereo_offsets_witness :
  0 <= 0.12 ∧
  is_Some (GetPrimAtPath SceneBuilder.scene left_path) ∧
  is_Some (GetPrimAtPath SceneBuilder.scene right_path) ∧
  ∃ w' left_offset right_offset,
    setup_stereo_baseline flat_translation flat_row0 0.12
      (mkWorld SceneBuilder.scene []) = Returned tt w' ∧
    local_pos (stage w') left_path = Some (Gf.mkVec3d left_offset 0 0) ∧
    local_pos (stage w') right_path = Some (Gf.mkVec3d right_offset 0 0) ∧
    left_offset = - (0.12) / 2 ∧
    right_offset = 0.12 / 2 ∧
    left_offset + right_offset = 0 ∧
    right_offset - left_offset = 0.12.
Proof.
  assert (H0 : 0 <= 0.12) by lra.
  assert (H1 : is_Some (GetPrimAtPath SceneBuilder.scene left_path))
    by (apply is_Some_IsValid; reflexivity).
  assert (H2 : is_Some (GetPrimAtPath SceneBuilder.scene right_path))
    by (apply is_Some_IsValid; reflexivity).
  repeat (split; [assumption |]).
  exact (proj1 (stereo_offsets_symmetric flat_translation flat_row0
                  0.12 SceneBuilder.scene [] H0 H1 H2)).
Defined.

(** C8, on a stage with nothing in it. *)
Lemma missing_nodes_witness :
  GetPrimAtPath SceneBuilder.new_stage "/World/Pantograph" = None ∧
  (GetPrimAtPath SceneBuilder.new_stage left_path = None
   ∨ GetPrimAtPath SceneBuilder.new_stage right_path = None) ∧
  set_semantic_label "/World/Pantograph" "pantograph" (mkWorld SceneBuilder.new_stage [])
    = Raised (RuntimeError "Missing prim at /World/Pantograph") [] ∧
  setup_stereo_baseline flat_translation flat_row0 0.12 (mkWorld SceneBuilder.new_stage [])
    = Returned tt (mkWorld SceneBuilder.new_stage [print WarnNoCameras]).
Proof.
  assert (H1 : GetPrimAtPath (stage (mkWorld SceneBuilder.new_stage []))
                 "/World/Pantograph" = None) by reflexivity.
  assert (H2 : GetPrimAtPath (stage (mkWorld SceneBuilder.new_stage [])) left_path = None
               ∨ GetPrimAtPath (stage (mkWorld SceneBuilder.new_stage [])) right_path = None)
    by (left; reflexivity).
  split; [exact H1 |]. split; [exact H2 |].
  exact (proj2 (missing_nodes flat_translation flat_row0 0.12
                  (mkWorld SceneBuilder.new_stage []) "/World/Pantograph" "pantograph"
                  H1 H2)).
Defined.

(** C9, on the exported scene. *)
Lemma capture_session_witness :
  is_Some (GetPrimAtPath SceneBuilder.scene left_path) ∧
  is_Some (GetPrimAtPath SceneBuilder.scene right_path) ∧
  is_Some (GetPrimAtPath SceneBuilder.scene "/World/Pantograph") ∧
  is_Some (GetPrimAtPath SceneBuilder.scene "/World/Ground") ∧
  is_Some (GetPrimAtPath SceneBuilder.scene "/World/CatenaryWire") ∧
  ∃ w,
    main flat_translation flat_row0 (Some SceneBuilder.scene) = Returned tt w ∧
    requests (events w)
    = [ makedirs OUTPUT_DIR; new_layer;
        render_product left_path RESOLUTION; render_product right_path RESOLUTION;
        writer_get "BasicWriter"; writer_initialize OUTPUT_DIR true true true;
        writer_attach [left_path; right_path] ]
      ++ concat (repeat [orchestrator_step; app_update] NUM_FRAMES)
      ++ repeat app_update 5
      ++ [app_close] ∧
    NUM_FRAMES = 30%nat ∧
    length (List.filter is_step (events w)) = 30%nat ∧
    List.filter is_step (repeat app_update 5 ++ [app_close]) = [].
Proof.
  assert (H1 : is_Some (GetPrimAtPath SceneBuilder.scene left_path))
    by (apply is_Some_IsValid; reflexivity).
  assert (H2 : is_Some (GetPrimAtPath SceneBuilder.scene right_path))
    by (apply is_Some_IsValid; reflexivity).
  assert (H3 : is_Some (GetPrimAtPath SceneBuilder.scene "/World/Pantograph"))
    by (apply is_Some_IsValid; reflexivity).
  assert (H4 : is_Some (GetPrimAtPath SceneBuilder.scene "/World/Ground"))
    by (apply is_Some_IsValid; reflexivity).
  assert (H5 : is_Some (GetPrimAtPath SceneBuilder.scene "/World/CatenaryWire"))
    by (apply is_Some_IsValid; reflexivity).
  repeat (split; [assumption |]).
  exact (capture_session_lifecycle flat_translation flat_row0 SceneBuilder.scene
           H1 H2 H3 H4 H5).
Defined.

(** C10, on the exported scene with the script's baseline. *)
Lemma setup_idempotent_witness :
  is_Some (GetPrimAtPath SceneBuilder.scene left_path) ∧
  is_Some (GetPrimAtPath SceneBuilder.scene right_path) ∧
  ∃ w1 w2,
    setup_stereo_baseline flat_translation flat_row0 0.12
      (mkWorld SceneBuilder.scene []) = Returned tt w1 ∧
    setup_stereo_baseline flat_translation flat_row0 0.12 w1 = Returned tt w2 ∧
    stage w2 = stage w1.
Proof.
  assert (H1 : is_Some (GetPrimAtPath SceneBuilder.scene left_path))
    by (apply is_Some_IsValid; reflexivity).
  assert (H2 : is_Some (GetPrimAtPath SceneBuilder.scene right_path))
    by (apply is_Some_IsValid; reflexivity).
  repeat (split; [assumption |]).
  destruct (setup_stereo_baseline_idempotent flat_translation flat_row0
              0.12 SceneBuilder.scene [] H1 H2) as (w1 & w2 & Ha & Hb & Hc & _).
  exists w1, w2. repeat split; assumption.
Defined.

End CaptureFacts.

(** ** The rig placement validator *)

Module ValidatorFacts.

#[local] Open Scope R_scope.

(** The distance between two points of the x axis. *)
Lemma length_along_x (a b : R) :
  a <= b → Gf.GetLength (Gf.sub (Gf.mkVec3d a 0 0) (Gf.mkVec3d b 0 0)) = b - a.
Proof.
  intros Hab. unfold Gf.GetLength, Gf.sub. simpl.
  replace ((a - b) * (a - b) + (0 - 0) * (0 - 0) + (0 - 0) * (0 - 0))
    with ((b - a) * (b - a)) by ring.
  apply sqrt_square. lra.
Qed.

Lemma verify_baseline_ok (l r : Gf.Vec3d) (expected tol : R) :
  Spec.ok (Spec.verify_baseline l r expected tol) = true
  ↔ Spec.delta_m (Spec.verify_baseline l r expected tol) <= tol.
Proof.
  unfold Spec.verify_baseline. simpl.
  destruct (Rle_dec _ tol) as [Hle | Hgt]; split; intros H; try done.
Qed.

(** C2.  [verify_baseline] reports as measured baseline the Euclidean
    distance between the two positions, which is the distance the capture
    script measures at frame 0; as delta the absolute difference between
    the measured and the expected baseline; and [ok] exactly when the
    delta is within the tolerance.  For cameras at x = -0.06 and x = 0.06
    and an expected baseline of 0.12 it reports ok, 0.12 and 0; for
    cameras at x = -0.5 and x = 0.5 it reports not ok, with delta 0.88. *)
Theorem verify_baseline_report (l r : Gf.Vec3d) (expected_baseline_m tolerance_m : R) :
  (let report := Spec.verify_baseline l r expected_baseline_m tolerance_m in
   Spec.measured_baseline_m report
     = sqrt ((Gf.vx l - Gf.vx r) * (Gf.vx l - Gf.vx r)
             + (Gf.vy l - Gf.vy r) * (Gf.vy l - Gf.vy r)
             + (Gf.vz l - Gf.vz r) * (Gf.vz l - Gf.vz r)) ∧
   Spec.measured_baseline_m report = Capture.dist l r ∧
   Spec.delta_m report = Rabs (Spec.measured_baseline_m report - expected_baseline_m) ∧
   (Spec.ok report = true ↔ Spec.delta_m report <= tolerance_m)) ∧
  Spec.verify_baseline (Gf.mkVec3d (-0.06) 0 0) (Gf.mkVec3d 0.06 0 0) 0.12
    Spec.default_tolerance_m
  = Spec.mkBaselineReport true 0.12 0 ∧
  Spec.verify_baseline (Gf.mkVec3d (-0.5) 0 0) (Gf.mkVec3d 0.5 0 0) 0.12
    Spec.default_tolerance_m
  = Spec.mkBaselineReport false 1 0.88.
Proof.
  split; [| split].
  - cbv zeta. split; [reflexivity |]. split; [reflexivity |].
    split; [reflexivity | apply verify_baseline_ok].
  - unfold Spec.verify_baseline, Spec.default_tolerance_m.
    rewrite length_along_x by lra.
    replace (0.06 - -0.06) with 0.12 by lra.
    replace (0.12 - 0.12) with 0 by lra. rewrite Rabs_R0.
    destruct (Rle_dec 0 0.001) as [_ | Hn]; [reflexivity | lra].
  - unfold Spec.verify_baseline, Spec.default_tolerance_m.
    rewrite length_along_x by lra.
    replace (0.5 - -0.5) with 1 by lra.
    replace (Rabs (1 - 0.12)) with 0.88
      by (rewrite Rabs_pos_eq by lra; lra).
    destruct (Rle_dec 0.88 0.001) as [Hle | _]; [lra | reflexivity].
Qed.

End ValidatorFacts.

(** ** What [setup_stereo_baseline] touches and what it leaves alone *)

Module SetupFrame.

Import Capture Summary CaptureFacts.
#[local] Open Scope R_scope.

Lemma overwrite_translate_fields (v : Gf.Vec3d) (p : Prim) :
  typeName (overwrite_translate v p) = typeName p ∧
  attributes (overwrite_translate v p) = attributes p ∧
  references (overwrite_translate v p) = references p.
Proof. by rewrite overwrite_translate_eq. Qed.

Lemma ensure_translate_lookup_other (ops : list XformOp) (j : nat) :
  j ≠ (ensure_translate ops).2 →
  (ensure_translate ops).1 !! j = ops !! j.
Proof.
  unfold ensure_translate. destruct (find_translate ops) as [i |]; simpl; [done |].
  intros Hj. destruct (decide (j < length ops)%nat) as [Hlt | Hge].
  - by rewrite lookup_app_l.
  - rewrite (lookup_ge_None_2 ops j) by lia.
    apply lookup_ge_None_2. rewrite length_app. simpl. lia.
Qed.

(** Every op but the first translate op keeps its place and its value. *)
Lemma overwrite_translate_lookup_other (v : Gf.Vec3d) (p : Prim) (j : nat) :
  find_translate (xformOps (overwrite_translate v p)) ≠ Some j →
  xformOps (overwrite_translate v p) !! j = xformOps p !! j.
Proof.
  rewrite find_translate_overwrite. intros Hj.
  assert (Hne : j ≠ (ensure_translate (xformOps p)).2) by congruence.
  rewrite xformOps_overwrite. unfold SetOp.
  rewrite list_lookup_alter_ne by done.
  by apply ensure_translate_lookup_other.
Qed.

Lemma overwrite_translate_length_found (v : Gf.Vec3d) (p : Prim) (i : nat) :
  find_translate (xformOps p) = Some i →
  length (xformOps (overwrite_translate v p)) = length (xformOps p) ∧
  xformOps (overwrite_translate v p) = SetOp (xformOps p) i v.
Proof.
  intros Hf. rewrite xformOps_overwrite, (ensure_translate_again _ _ Hf). simpl.
  split; [apply length_SetOp | done].
Qed.

Lemma overwrite_translate_added (v : Gf.Vec3d) (p : Prim) :
  find_translate (xformOps p) = None →
  xformOps (overwrite_translate v p)
  = xformOps p ++ [mkXformOp TypeTranslate (Some v)].
Proof.
  intros Hf. rewrite xformOps_overwrite. unfold ensure_translate. rewrite Hf.
  unfold AddTranslateOp, AddOp, SetOp. simpl.
  rewrite alter_app_r_alt by done. by rewrite Nat.sub_diag.
Qed.

(** An op that already holds the value is left as it is. *)
Lemma overwrite_translate_same (v : Gf.Vec3d) (p : Prim) (i : nat) (op : XformOp) :
  find_translate (xformOps p) = Some i →
  xformOps p !! i = Some op → Get op = Some v →
  overwrite_translate v p = p.
Proof.
  intros Hf Hop Hv. rewrite overwrite_translate_eq, (ensure_translate_again _ _ Hf).
  simpl. unfold SetOp.
  rewrite (list_alter_ext (set_op v) (λ x : XformOp, x) (xformOps p) (xformOps p) i).
  - rewrite list_alter_id by done. apply with_ops_same.
  - intros x Hx. replace x with op by congruence.
    destruct op as [t g]. simpl in *. by rewrite Hv.
  - reflexivity.
Qed.

Lemma rebased_other (baseline_m : R) (s : Stage) (path : string) :
  path ≠ left_path → path ≠ right_path →
  GetPrimAtPath (rebased baseline_m s) path = GetPrimAtPath s path.
Proof.
  intros Hl Hr. unfold rebased.
  destruct (GetPrimAtPath s left_path) as [lp |]; [| done].
  destruct (GetPrimAtPath s right_path) as [rp |]; [| done].
  by rewrite !GetPrimAtPath_set_prim_ne.
Qed.

Lemma rebased_units (baseline_m : R) (s : Stage) :
  upAxis (rebased baseline_m s) = upAxis s ∧
  metersPerUnit (rebased baseline_m s) = metersPerUnit s.
Proof.
  unfold rebased.
  destruct (GetPrimAtPath s left_path) as [lp |]; [| done].
  by destruct (GetPrimAtPath s right_path) as [rp |].
Qed.

Lemma rebased_camera (baseline_m : R) (s : Stage) (path : string) (p : Prim) :
  is_Some (GetPrimAtPath s left_path) → is_Some (GetPrimAtPath s right_path) →
  path = left_path ∨ path = right_path →
  GetPrimAtPath s path = Some p →
  ∃ v, GetPrimAtPath (rebased baseline_m s) path = Some (overwrite_translate v p)
       ∧ (v = Gf.mkVec3d (- (baseline_m / 2)) 0 0 ∨ v = Gf.mkVec3d (baseline_m / 2) 0 0).
Proof.
  intros [lp Hl] [rp Hr] Hpath Hp.
  rewrite (rebased_valid _ _ _ _ Hl Hr). replace 2.0 with 2 by lra.
  destruct Hpath as [-> | ->].
  - replace p with lp by congruence. eexists. split; [| by left].
    rewrite GetPrimAtPath_set_prim_ne by (symmetry; apply left_right_distinct).
    apply GetPrimAtPath_set_prim_eq.
  - replace p with rp by congruence. eexists. split; [| by right].
    apply GetPrimAtPath_set_prim_eq.
Qed.

Section Frame.

Context (ExtractTranslation GetRow3_0 : Stage → string → Gf.Vec3d).

#[local] Abbreviation setup := (setup_stereo_baseline ExtractTranslation GetRow3_0).

(** X1.  Whatever the baseline and the stage, [setup_stereo_baseline]
    returns with every prim other than the two cameras as it was, and
    with the stage's up axis and units as they were. *)
Theorem setup_leaves_other_prims (baseline_m : R) (w : World) :
  ∃ w',
    setup baseline_m w = Returned tt w' ∧
    (∀ path, path ≠ left_path → path ≠ right_path →
       GetPrimAtPath (stage w') path = GetPrimAtPath (stage w) path) ∧
    upAxis (stage w') = upAxis (stage w) ∧
    metersPerUnit (stage w') = metersPerUnit (stage w).
Proof.
  destruct (setup_run ExtractTranslation GetRow3_0 baseline_m w) as (evs & Hrun & _).
  eexists. split; [exact Hrun |]. cbn [stage].
  split; [intros path Hl Hr; by apply rebased_other |].
  apply rebased_units.
Qed.

(** X2.  On a camera, [setup_stereo_baseline] keeps the type name, the
    attributes and the references, and every transform op other than
    the first translate op keeps its position and its value: a rotation,
    a scale or a later translate op of the camera is not reset. *)
Theorem setup_keeps_camera_but_first_translate
    (baseline_m : R) (w : World) (path : string) (p : Prim)
    (Hl : is_Some (GetPrimAtPath (stage w) left_path))
    (Hr : is_Some (GetPrimAtPath (stage w) right_path))
    (Hpath : path = left_path ∨ path = right_path)
    (Hp : GetPrimAtPath (stage w) path = Some p) :
  ∃ w' p',
    setup baseline_m w = Returned tt w' ∧
    GetPrimAtPath (stage w') path = Some p' ∧
    typeName p' = typeName p ∧
    attributes p' = attributes p ∧
    references p' = references p ∧
    ∀ j, find_translate (xformOps p') ≠ Some j →
         xformOps p' !! j = xformOps p !! j.
Proof.
  destruct (setup_run ExtractTranslation GetRow3_0 baseline_m w) as (evs & Hrun & _).
  destruct (rebased_camera baseline_m (stage w) path p Hl Hr Hpath Hp) as (v & Hv & _).
  destruct (overwrite_translate_fields v p) as (Ht & Ha & Hrf).
  eexists _, _. split; [exact Hrun |]. cbn [stage]. split; [exact Hv |].
  repeat split; try done. intros j. apply overwrite_translate_lookup_other.
Qed.

(** X3.  [setup_stereo_baseline] adds at most one op to a camera.  A
    camera that has a translate op keeps the number and the types of its
    ops; a camera that has none gets exactly one, a translate op, at the
    end of its ordered ops. *)
Theorem setup_adds_at_most_one_op
    (baseline_m : R) (w : World) (path : string) (p : Prim)
    (Hl : is_Some (GetPrimAtPath (stage w) left_path))
    (Hr : is_Some (GetPrimAtPath (stage w) right_path))
    (Hpath : path = left_path ∨ path = right_path)
    (Hp : GetPrimAtPath (stage w) path = Some p) :
  ∃ w' p',
    setup baseline_m w = Returned tt w' ∧
    GetPrimAtPath (stage w') path = Some p' ∧
    (is_Some (find_translate (xformOps p)) →
       length (xformOps p') = length (xformOps p) ∧
       GetOpType <$> xformOps p' = GetOpType <$> xformOps p) ∧
    (find_translate (xformOps p) = None →
       ∃ v, xformOps p' = xformOps p ++ [mkXformOp TypeTranslate (Some v)]).
Proof.
  destruct (setup_run ExtractTranslation GetRow3_0 baseline_m w) as (evs & Hrun & _).
  destruct (rebased_camera baseline_m (stage w) path p Hl Hr Hpath Hp) as (v & Hv & _).
  eexists _, _. split; [exact Hrun |]. cbn [stage]. split; [exact Hv |]. split.
  - intros [i Hi].
    destruct (overwrite_translate_length_found v p i Hi) as [Hlen Hops].
    split; [done |]. rewrite Hops. unfold SetOp.
    apply list_eq. intros j. rewrite !list_lookup_fmap.
    destruct (decide (i = j)) as [<- | Hne].
    + rewrite list_lookup_alter_eq. by destruct (xformOps p !! i).
    + by rewrite list_lookup_alter_ne.
  - intros Hnone. exists v. by apply overwrite_translate_added.
Qed.

End Frame.

End SetupFrame.

(** ** How calls of [setup_stereo_baseline] compose *)

Module SetupCompose.

Import Capture Summary CaptureFacts SetupFrame.
#[local] Open Scope R_scope.

Lemma local_pos_inv (s : Stage) (path : string) (v : Gf.Vec3d) :
  local_pos s path = Some v →
  ∃ p i op, GetPrimAtPath s path = Some p ∧ find_translate (xformOps p) = Some i
            ∧ xformOps p !! i = Some op ∧ Get op = Some v.
Proof.
  unfold local_pos. intros H.
  destruct (GetPrimAtPath s path) as [p |] eqn:Hp; [| done]. simpl in H.
  destruct (find_translate (xformOps p)) as [i |] eqn:Hi; [| done]. simpl in H.
  destruct (xformOps p !! i) as [op |] eqn:Hop; [| done]. simpl in H.
  by exists p, i, op.
Qed.

Lemma rebased_same (baseline_m : R) (s : Stage) :
  local_pos s left_path = Some (Gf.mkVec3d (- (baseline_m / 2)) 0 0) →
  local_pos s right_path = Some (Gf.mkVec3d (baseline_m / 2) 0 0) →
  rebased baseline_m s = s.
Proof.
  intros (lp & i & lop & Hl & Hli & Hlop & Hlv)%local_pos_inv
         (rp & j & rop & Hr & Hrj & Hrop & Hrv)%local_pos_inv.
  rewrite (rebased_valid _ _ _ _ Hl Hr). replace 2.0 with 2 by lra.
  rewrite (overwrite_translate_same _ lp i lop Hli Hlop Hlv).
  rewrite (overwrite_translate_same _ rp j rop Hrj Hrop Hrv).
  rewrite (set_prim_same s left_path lp Hl). by apply set_prim_same.
Qed.

Lemma rebased_rebased (b1 b2 : R) (s : Stage) :
  rebased b2 (rebased b1 s) = rebased b2 s.
Proof.
  destruct (GetPrimAtPath s left_path) as [lp |] eqn:Hl;
    [destruct (GetPrimAtPath s right_path) as [rp |] eqn:Hr |].
  - rewrite (rebased_valid b1 s _ _ Hl Hr), (rebased_valid b2 s _ _ Hl Hr).
    erewrite rebased_valid.
    2: { rewrite GetPrimAtPath_set_prim_ne by (symmetry; apply left_right_distinct).
         apply GetPrimAtPath_set_prim_eq. }
    2: { apply GetPrimAtPath_set_prim_eq. }
    rewrite !overwrite_translate_twice.
    rewrite (set_prim_comm _ right_path left_path)
      by (symmetry; apply left_right_distinct).
    by rewrite !set_prim_twice.
  - by rewrite !(rebased_missing _ s) by by right.
  - by rewrite !(rebased_missing _ s) by by left.
Qed.

Lemma dist_mirrored (baseline_m : R) :
  dist (Gf.mkVec3d (- (baseline_m / 2)) 0 0) (Gf.mkVec3d (baseline_m / 2) 0 0)
  = Rabs baseline_m.
Proof.
  unfold dist, Gf.GetLength, Gf.sub. simpl.
  replace ((- (baseline_m / 2) - baseline_m / 2) * (- (baseline_m / 2) - baseline_m / 2)
           + (0 - 0) * (0 - 0) + (0 - 0) * (0 - 0))
    with (Rsqr baseline_m) by (unfold Rsqr; field).
  apply sqrt_Rsqr_abs.
Qed.

Lemma op_Get_run (path : string) (i : nat) (p : Prim) (op : XformOp) (w : World) :
  GetPrimAtPath (stage w) path = Some p → xformOps p !! i = Some op →
  op_Get path i w = Returned (Get op) w.
Proof.
  intros Hp Hop. unfold op_Get. rewrite bind_run. simpl.
  unfold mret, Script_ret. by rewrite Hp; simpl; rewrite Hop.
Qed.

Section Compose.

Context (ExtractTranslation GetRow3_0 : Stage → string → Gf.Vec3d).

#[local] Abbreviation setup := (setup_stereo_baseline ExtractTranslation GetRow3_0).

(** X4.  When the two cameras already sit at [-b/2] and [+b/2],
    [setup_stereo_baseline b] changes nothing in the stage: it only
    prints. *)
Theorem setup_changes_nothing_at_baseline (baseline_m : R) (w : World)
    (Hl : local_pos (stage w) left_path = Some (Gf.mkVec3d (- (baseline_m / 2)) 0 0))
    (Hr : local_pos (stage w) right_path = Some (Gf.mkVec3d (baseline_m / 2) 0 0)) :
  ∃ evs,
    setup baseline_m w = Returned tt (mkWorld (stage w) (events w ++ evs)) ∧
    forallb is_print evs = true.
Proof.
  destruct (setup_run ExtractTranslation GetRow3_0 baseline_m w) as (evs & Hrun & Hpr).
  exists evs. by rewrite (rebased_same _ _ Hl Hr) in Hrun.
Qed.

(** X5.  The last call decides: [setup_stereo_baseline b1] followed by
    [setup_stereo_baseline b2] leaves the stage that
    [setup_stereo_baseline b2] alone leaves. *)
Theorem setup_last_call_wins (b1 b2 : R) (w : World) :
  ∃ w1 w12 w2,
    setup b1 w = Returned tt w1 ∧
    setup b2 w1 = Returned tt w12 ∧
    setup b2 w = Returned tt w2 ∧
    stage w12 = stage w2.
Proof.
  destruct (setup_run ExtractTranslation GetRow3_0 b1 w) as (evs1 & Hrun1 & _).
  destruct (setup_run ExtractTranslation GetRow3_0 b2 w) as (evs2 & Hrun2 & _).
  destruct (setup_run ExtractTranslation GetRow3_0 b2
              (mkWorld (rebased b1 (stage w)) (events w ++ evs1)))
    as (evs12 & Hrun12 & _).
  eexists _, _, _. split; [exact Hrun1 |]. split; [exact Hrun12 |].
  split; [exact Hrun2 |]. cbn [stage]. apply rebased_rebased.
Qed.

(** X6.  The two local positions [setup_stereo_baseline b] writes are
    [|b|] apart, as the script measures distances at frame 0: the
    requested baseline for [b >= 0], its absolute value for a negative
    one. *)
Theorem setup_realises_baseline (baseline_m : R) (w : World)
    (Hl : is_Some (GetPrimAtPath (stage w) left_path))
    (Hr : is_Some (GetPrimAtPath (stage w) right_path)) :
  ∃ w' l r,
    setup baseline_m w = Returned tt w' ∧
    local_pos (stage w') left_path = Some l ∧
    local_pos (stage w') right_path = Some r ∧
    dist l r = Rabs baseline_m ∧
    (0 <= baseline_m → dist l r = baseline_m).
Proof.
  destruct (setup_run ExtractTranslation GetRow3_0 baseline_m w) as (evs & Hrun & _).
  destruct (local_pos_rebased baseline_m (stage w) Hl Hr) as [Hlp Hrp].
  eexists _, _, _. split; [exact Hrun |]. cbn [stage].
  split; [exact Hlp |]. split; [exact Hrp |].
  rewrite dist_mirrored. split; [done |]. intros Hb. by apply Rabs_pos_eq.
Qed.

(** X7.  With both cameras on the stage, [setup_stereo_baseline b]
    prints, in this order: the baseline in millimetres, the rig's first
    row, the left and the right local position, which are the values it
    has just written, and the pantograph's world position if and only if
    the pantograph prim is there; it prints no warning. *)
Theorem setup_report (baseline_m : R) (w : World)
    (Hl : is_Some (GetPrimAtPath (stage w) left_path))
    (Hr : is_Some (GetPrimAtPath (stage w) right_path)) :
  let s' := rebased baseline_m (stage w) in
  setup baseline_m w
  = Returned tt
      (mkWorld s'
         (events w
          ++ [ print (SetBaseline (baseline_m * 1000));
               print (RigScale (GetRow3_0 s' "/World/StereoCameraRig"));
               print (LeftLocalPos (Some (Gf.mkVec3d (- (baseline_m / 2.0)) 0 0)));
               print (RightLocalPos (Some (Gf.mkVec3d (baseline_m / 2.0) 0 0))) ]
          ++ (if IsValid (GetPrimAtPath s' "/World/Pantograph")
              then [print (PantographWorldPos (ExtractTranslation s' "/World/Pantograph"))]
              else []))).
Proof.
  destruct Hl as [lp Hl]. destruct Hr as [rp Hr]. cbv zeta.
  rewrite (rebased_valid _ _ _ _ Hl Hr).
  unfold setup_stereo_baseline. rewrite bind_run. unfold get_stage at 1.
  rewrite Hl, Hr. cbn [IsValid negb orb].
  rewrite bind_run, (get_or_add_translate_run _ _ _ Hl).
  rewrite bind_run, (get_or_add_translate_run _ rp).
  2: { cbn [stage]. by rewrite GetPrimAtPath_set_prim_ne by apply left_right_distinct. }
  cbn [stage events].
  rewrite bind_run, (op_Set_run _ _ _ (with_ops lp (ensure_translate (xformOps lp)).1)).
  2: { cbn [stage]. rewrite GetPrimAtPath_set_prim_ne by (symmetry; apply left_right_distinct).
       apply GetPrimAtPath_set_prim_eq. }
  cbn [stage events].
  rewrite bind_run, (op_Set_run _ _ _ (with_ops rp (ensure_translate (xformOps rp)).1)).
  2: { cbn [stage]. rewrite GetPrimAtPath_set_prim_ne by apply left_right_distinct.
       apply GetPrimAtPath_set_prim_eq. }
  cbn [stage events xformOps with_ops].
  rewrite !with_ops_twice, <- !overwrite_translate_eq.
  rewrite (set_prim_comm _ right_path left_path)
    by (symmetry; apply left_right_distinct).
  rewrite !set_prim_twice.
  set (lv := Gf.mkVec3d (- (baseline_m / 2.0)) 0 0).
  set (rv := Gf.mkVec3d (baseline_m / 2.0) 0 0).
  set (s' := set_prim (set_prim (stage w) left_path (overwrite_translate lv lp))
               right_path (overwrite_translate rv rp)).
  assert (Hl' : GetPrimAtPath s' left_path = Some (overwrite_translate lv lp)).
  { unfold s'. rewrite GetPrimAtPath_set_prim_ne by (symmetry; apply left_right_distinct).
    apply GetPrimAtPath_set_prim_eq. }
  assert (Hr' : GetPrimAtPath s' right_path = Some (overwrite_translate rv rp))
    by apply GetPrimAtPath_set_prim_eq.
  destruct (overwrite_translate_value lv lp) as (lop & Hlop & Hlv).
  destruct (overwrite_translate_value rv rp) as (rop & Hrop & Hrv).
  clearbody s'.
  rewrite bind_run. unfold emit at 1. cbn [stage events].
  rewrite bind_run. unfold get_stage at 1. cbn [stage events].
  rewrite bind_run. unfold emit at 1. cbn [stage events].
  rewrite bind_run, (op_Get_run _ _ _ lop) by done.
  rewrite bind_run. unfold emit at 1. cbn [stage events].
  rewrite bind_run, (op_Get_run _ _ _ rop) by done.
  rewrite bind_run. unfold emit at 1. cbn [stage events].
  rewrite Hlv, Hrv.
  destruct (IsValid (GetPrimAtPath s' "/World/Pantograph")).
  - unfold emit. cbn [stage events]. by rewrite <- !app_assoc.
  - unfold mret, Script_ret. by rewrite <- !app_assoc, app_nil_r.
Qed.

End Compose.

End SetupCompose.

(** ** The distance measured at frame 0 *)

Module DistFacts.

Import Capture.
#[local] Open Scope R_scope.

Lemma sum_squares_nonneg (a b c : R) : 0 <= a * a + b * b + c * c.
Proof.
  pose proof (Rle_0_sqr a). pose proof (Rle_0_sqr b). pose proof (Rle_0_sqr c).
  unfold Rsqr in *. lra.
Qed.

Lemma sum_squares_zero (a b c : R) : a * a + b * b + c * c = 0 → a = 0 ∧ b = 0 ∧ c = 0.
Proof.
  intros H.
  pose proof (Rle_0_sqr a) as Ha. pose proof (Rle_0_sqr b) as Hb.
  pose proof (Rle_0_sqr c) as Hc. unfold Rsqr in *.
  repeat split; apply Rsqr_0_uniq; unfold Rsqr; lra.
Qed.

(** X8.  The measured baseline does not depend on which camera is taken
    first, is never negative, and is 0 exactly when the two cameras are
    at the same position. *)
Theorem dist_symmetric_zero_iff_same (l_pos r_pos : Gf.Vec3d) :
  dist l_pos r_pos = dist r_pos l_pos ∧
  0 <= dist l_pos r_pos ∧
  (dist l_pos r_pos = 0 ↔ l_pos = r_pos).
Proof.
  destruct l_pos as [lx ly lz]. destruct r_pos as [rx ry rz].
  unfold dist, Gf.GetLength, Gf.sub. simpl.
  split; [f_equal; ring |]. split; [apply sqrt_pos |]. split.
  - intros H. apply sqrt_eq_0 in H.
    2: { apply sum_squares_nonneg. }
    apply sum_squares_zero in H. destruct H as (Hx & Hy & Hz).
    f_equal; lra.
  - intros [= -> -> ->].
    replace ((rx - rx) * (rx - rx) + (ry - ry) * (ry - ry) + (rz - rz) * (rz - rz))
      with 0 by ring.
    apply sqrt_0.
Qed.

(** X9.  A rig that scales its cameras' positions by [k] scales the
    measured baseline by [|k|]; a rig that only moves them leaves it as
    it is. *)
Theorem dist_under_scale_and_shift (k : R) (l_pos r_pos t : Gf.Vec3d) :
  dist (Gf.mkVec3d (k * Gf.vx l_pos) (k * Gf.vy l_pos) (k * Gf.vz l_pos))
       (Gf.mkVec3d (k * Gf.vx r_pos) (k * Gf.vy r_pos) (k * Gf.vz r_pos))
  = Rabs k * dist l_pos r_pos ∧
  dist (Gf.mkVec3d (Gf.vx l_pos + Gf.vx t) (Gf.vy l_pos + Gf.vy t) (Gf.vz l_pos + Gf.vz t))
       (Gf.mkVec3d (Gf.vx r_pos + Gf.vx t) (Gf.vy r_pos + Gf.vy t) (Gf.vz r_pos + Gf.vz t))
  = dist l_pos r_pos.
Proof.
  destruct l_pos as [lx ly lz]. destruct r_pos as [rx ry rz]. destruct t as [tx ty tz].
  unfold dist, Gf.GetLength, Gf.sub. simpl. split.
  - rewrite <- sqrt_Rsqr_abs, <- sqrt_mult; [f_equal; unfold Rsqr; ring | apply Rle_0_sqr | apply sum_squares_nonneg].
  - f_equal. ring.
Qed.

End DistFacts.

(** ** Semantic labels *)

Module LabelFacts.

Import Capture Summary CaptureFacts.

Lemma label_prim_lookup (prim_path label : string) (s : Stage) (p : Prim) :
  GetPrimAtPath s prim_path = Some p →
  GetPrimAtPath (label_prim prim_path label s) prim_path
  = Some (with_attr p "semantics:class" (VToken label)).
Proof.
  intros Hp. unfold label_prim, SceneBuilder.on_prim. rewrite Hp.
  apply GetPrimAtPath_set_prim_eq.
Qed.

Lemma label_prim_other (prim_path label path : string) (s : Stage) :
  path ≠ prim_path →
  GetPrimAtPath (label_prim prim_path label s) path = GetPrimAtPath s path.
Proof.
  intros Hne. unfold label_prim, SceneBuilder.on_prim.
  destruct (GetPrimAtPath s prim_path); [| done].
  by rewrite GetPrimAtPath_set_prim_ne.
Qed.

Lemma label_prim_units (prim_path label : string) (s : Stage) :
  upAxis (label_prim prim_path label s) = upAxis s ∧
  metersPerUnit (label_prim prim_path label s) = metersPerUnit s.
Proof.
  unfold label_prim, SceneBuilder.on_prim. by destruct (GetPrimAtPath s prim_path).
Qed.

(** X10.  On a prim that is there, [set_semantic_label] returns and
    prints nothing; afterwards the prim's ["semantics:class"] attribute
    is the label, its other attributes, its type name, its ordered ops
    and its references are as before, and every other prim is as
    before. *)
Theorem set_semantic_label_sets_only_the_label
    (prim_path label : string) (w : World) (p : Prim)
    (Hp : GetPrimAtPath (stage w) prim_path = Some p) :
  ∃ s' p',
    set_semantic_label prim_path label w = Returned tt (mkWorld s' (events w)) ∧
    GetPrimAtPath s' prim_path = Some p' ∧
    attributes p' !! "semantics:class" = Some (VToken label) ∧
    (∀ name, name ≠ "semantics:class" → attributes p' !! name = attributes p !! name) ∧
    typeName p' = typeName p ∧ xformOps p' = xformOps p ∧ references p' = references p ∧
    (∀ path, path ≠ prim_path → GetPrimAtPath s' path = GetPrimAtPath (stage w) path).
Proof.
  eexists _, _. split; [by apply (set_semantic_label_valid _ _ p) |].
  split; [by apply label_prim_lookup |]. simpl.
  split; [apply lookup_insert_eq |].
  split; [intros name Hn; by apply lookup_insert_ne |].
  repeat split. intros path Hne. by apply label_prim_other.
Qed.

(** X11.  Labelling a prim again replaces its label: two calls on the
    same prim leave the stage that the second call alone leaves. *)
Theorem set_semantic_label_last_label_wins
    (prim_path label1 label2 : string) (w : World)
    (Hp : is_Some (GetPrimAtPath (stage w) prim_path)) :
  ∃ w1 w12 w2,
    set_semantic_label prim_path label1 w = Returned tt w1 ∧
    set_semantic_label prim_path label2 w1 = Returned tt w12 ∧
    set_semantic_label prim_path label2 w = Returned tt w2 ∧
    w12 = w2.
Proof.
  destruct Hp as [p Hp].
  eexists _, _, _. split; [by apply (set_semantic_label_valid _ _ p) |].
  split.
  { apply (set_semantic_label_valid _ _ (with_attr p "semantics:class" (VToken label1))).
    cbn [stage]. by apply label_prim_lookup. }
  split; [by apply (set_semantic_label_valid _ _ p) |].
  cbn [stage events]. f_equal.
  unfold label_prim, SceneBuilder.on_prim. rewrite Hp.
  rewrite GetPrimAtPath_set_prim_eq, set_prim_twice. f_equal.
  unfold with_attr. simpl. f_equal. apply insert_insert_eq.
Qed.

End LabelFacts.

(** ** The whole capture script *)

Module MainFacts.

Import Capture Summary Traces CaptureFacts SetupFrame SetupCompose LabelFacts.
#[local] Open Scope R_scope.

Lemma labelled_other (s : Stage) (path : string) :
  path ≠ "/World/Pantograph" → path ≠ "/World/Ground" → path ≠ "/World/CatenaryWire" →
  GetPrimAtPath (labelled s) path = GetPrimAtPath s path.
Proof. intros Hp Hg Hc. unfold labelled. by rewrite !label_prim_other. Qed.

Lemma labelled_units (s : Stage) :
  upAxis (labelled s) = upAxis s ∧ metersPerUnit (labelled s) = metersPerUnit s.
Proof.
  unfold labelled.
  destruct (label_prim_units "/World/CatenaryWire" "catenary"
              (label_prim "/World/Ground" "ground"
                 (label_prim "/World/Pantograph" "pantograph" s))) as [-> ->].
  destruct (label_prim_units "/World/Ground" "ground"
              (label_prim "/World/Pantograph" "pantograph" s)) as [-> ->].
  apply label_prim_units.
Qed.

Lemma labelled_labels (s : Stage) (pp pg pc : Prim) :
  GetPrimAtPath s "/World/Pantograph" = Some pp →
  GetPrimAtPath s "/World/Ground" = Some pg →
  GetPrimAtPath s "/World/CatenaryWire" = Some pc →
  GetPrimAtPath (labelled s) "/World/Pantograph"
    = Some (with_attr pp "semantics:class" (VToken "pantograph")) ∧
  GetPrimAtPath (labelled s) "/World/Ground"
    = Some (with_attr pg "semantics:class" (VToken "ground")) ∧
  GetPrimAtPath (labelled s) "/World/CatenaryWire"
    = Some (with_attr pc "semantics:class" (VToken "catenary")).
Proof.
  intros Hp Hg Hc. unfold labelled. split; [| split].
  - rewrite !label_prim_other by discriminate. by apply label_prim_lookup.
  - rewrite label_prim_other by discriminate. apply label_prim_lookup.
    by rewrite label_prim_other by discriminate.
  - apply label_prim_lookup. by rewrite !label_prim_other by discriminate.
Qed.

Lemma In_concat_repeat {A : Type} (x : A) (l : list A) (n : nat) :
  In x (concat (repeat l n)) → In x l.
Proof.
  induction n as [| n IH]; simpl; [done |].
  rewrite in_app_iff. intros [H | H]; [done | by apply IH].
Qed.

Lemma raised_bind {A B : Type} (m : Script A) (f : A → Script B) (w : World)
    (e : Exception) (evs : list Event) :
  m w = Raised e evs → (m ≫= f) w = Raised e evs.
Proof. intros H. by rewrite bind_run, H. Qed.

Lemma seq_events (m k : Script unit) (w : World) (s1 s2 : Stage) (e1 e2 : list Event) :
  m w = Returned tt (mkWorld s1 (events w ++ e1)) →
  (∀ evs, k (mkWorld s1 evs) = Returned tt (mkWorld s2 (evs ++ e2))) →
  (m;; k) w = Returned tt (mkWorld s2 (events w ++ e1 ++ e2)).
Proof. intros Hm Hk. by rewrite bind_run, Hm, Hk, app_assoc. Qed.

Lemma drain_and_close_events (s : Stage) (evs : list Event) :
  drain_and_close (mkWorld s evs)
  = Returned tt
      (mkWorld s (evs ++ repeat app_update 5 ++ [print (WroteOutputs OUTPUT_DIR); app_close])).
Proof.
  unfold drain_and_close, for_range. simpl for_from.
  cbv [mbind Script_bind emit mret Script_ret]. cbn [stage events].
  by rewrite <- !app_assoc.
Qed.

Section Main.

Context (ExtractTranslation GetRow3_0 : Stage → string → Gf.Vec3d).

#[local] Abbreviation setup := (setup_stereo_baseline ExtractTranslation GetRow3_0).
#[local] Abbreviation run_main := (main ExtractTranslation GetRow3_0).

Lemma capture_frame_later (i : nat) (s : Stage) (evs : list Event) :
  i ≠ 0%nat →
  capture_frame ExtractTranslation i (mkWorld s evs)
  = Returned tt (mkWorld s (evs ++ [orchestrator_step; app_update])).
Proof.
  intros Hi. unfold capture_frame. destruct i as [| i]; [done |]. simpl Nat.eqb.
  cbv [mbind Script_bind emit mret Script_ret]. cbn [stage events].
  by rewrite <- app_assoc.
Qed.

Lemma later_frames_events (n start : nat) (s : Stage) (evs : list Event) :
  start ≠ 0%nat →
  for_from start n (capture_frame ExtractTranslation) (mkWorld s evs)
  = Returned tt (mkWorld s (evs ++ concat (repeat [orchestrator_step; app_update] n))).
Proof.
  revert start evs. induction n as [| n IH]; intros start evs Hs.
  - simpl. unfold mret, Script_ret. by rewrite app_nil_r.
  - simpl for_from. rewrite bind_run, capture_frame_later by done.
    rewrite IH by done. simpl. by rewrite <- app_assoc.
Qed.

Lemma capture_frame_first (s : Stage) (evs : list Event) :
  is_Some (GetPrimAtPath s left_path) → is_Some (GetPrimAtPath s right_path) →
  capture_frame ExtractTranslation 0 (mkWorld s evs)
  = Returned tt
      (mkWorld s
         (evs ++ [orchestrator_step; app_update]
          ++ frame0_lines (ExtractTranslation s left_path)
               (ExtractTranslation s right_path))).
Proof.
  intros Hl Hr. unfold capture_frame, frame0_check. simpl Nat.eqb.
  rewrite bind_run. unfold emit at 1. cbn [stage events].
  rewrite bind_run. unfold emit at 1. cbn [stage events].
  rewrite bind_run, world_pos_valid by done.
  rewrite bind_run, world_pos_valid by done.
  cbv [mbind Script_bind emit]. cbn [stage events].
  unfold frame0_lines. by rewrite <- !app_assoc.
Qed.

(** With a camera missing, the first frame raises after its step and
    its update. *)
Lemma capture_frame_first_raises (s : Stage) (evs : list Event) :
  GetPrimAtPath s left_path = None ∨ GetPrimAtPath s right_path = None →
  capture_frame ExtractTranslation 0 (mkWorld s evs)
  = Raised (RuntimeError "Accessed schema on invalid prim")
      (evs ++ [orchestrator_step; app_update]).
Proof.
  intros Hmiss. unfold capture_frame, frame0_check. simpl Nat.eqb.
  rewrite bind_run. unfold emit at 1. cbn [stage events].
  rewrite bind_run. unfold emit at 1. cbn [stage events].
  destruct (GetPrimAtPath s left_path) as [lp |] eqn:Hl.
  - destruct Hmiss as [Hmiss | Hmiss]; [done |].
    rewrite bind_run, world_pos_valid by (cbn [stage]; by eexists).
    cbn [stage events]. apply raised_bind.
    rewrite world_pos_missing by done. cbn [events]. by rewrite <- app_assoc.
  - apply raised_bind. rewrite world_pos_missing by done.
    cbn [events]. by rewrite <- app_assoc.
Qed.

Lemma for_from_S (start n : nat) (body : nat → Script unit) :
  for_from start (S n) body = (body start;; for_from (S start) n body).
Proof. reflexivity. Qed.

Lemma capture_loop_events (s : Stage) (evs : list Event) :
  is_Some (GetPrimAtPath s left_path) → is_Some (GetPrimAtPath s right_path) →
  capture_loop ExtractTranslation (mkWorld s evs)
  = Returned tt
      (mkWorld s
         (evs ++ [orchestrator_step; app_update]
          ++ frame0_lines (ExtractTranslation s left_path) (ExtractTranslation s right_path)
          ++ concat (repeat [orchestrator_step; app_update] 29))).
Proof.
  intros Hl Hr. unfold capture_loop, for_range, NUM_FRAMES.
  rewrite for_from_S, bind_run, capture_frame_first by done.
  rewrite later_frames_events by discriminate.
  f_equal. f_equal. rewrite <- !app_assoc. reflexivity.
Qed.

Lemma capture_loop_raises (s : Stage) (evs : list Event) :
  GetPrimAtPath s left_path = None ∨ GetPrimAtPath s right_path = None →
  capture_loop ExtractTranslation (mkWorld s evs)
  = Raised (RuntimeError "Accessed schema on invalid prim")
      (evs ++ [orchestrator_step; app_update]).
Proof.
  intros Hmiss. unfold capture_loop, for_range, NUM_FRAMES.
  rewrite for_from_S. apply raised_bind. by apply capture_frame_first_raises.
Qed.

Lemma configure_writer_events (s : Stage) (evs : list Event) :
  is_Some (GetPrimAtPath s "/World/Pantograph") →
  is_Some (GetPrimAtPath s "/World/Ground") →
  is_Some (GetPrimAtPath s "/World/CatenaryWire") →
  configure_writer (mkWorld s evs)
  = Returned tt
      (mkWorld (labelled s)
         (evs ++ [ new_layer;
                   render_product left_path RESOLUTION;
                   render_product right_path RESOLUTION;
                   writer_get "BasicWriter";
                   writer_initialize OUTPUT_DIR true true true;
                   writer_attach [left_path; right_path] ])).
Proof.
  intros [pp Hp] [pg Hg] [pc Hc]. unfold configure_writer, labelled.
  rewrite bind_run. unfold emit at 1. cbn [stage events].
  rewrite bind_run, (set_semantic_label_valid _ _ pp) by done. cbn [stage events].
  rewrite bind_run, (set_semantic_label_valid _ _ pg)
    by (cbn [stage]; by rewrite label_prim_other by discriminate).
  cbn [stage events].
  rewrite bind_run, (set_semantic_label_valid _ _ pc)
    by (cbn [stage]; by rewrite !label_prim_other by discriminate).
  cbn [stage events].
  cbv [mbind Script_bind emit]. cbn [stage events].
  by rewrite <- !app_assoc.
Qed.

(** The session once the baseline has been set. *)
Lemma session_events_run (s : Stage) (evs : list Event) :
  is_Some (GetPrimAtPath s left_path) →
  is_Some (GetPrimAtPath s right_path) →
  is_Some (GetPrimAtPath s "/World/Pantograph") →
  is_Some (GetPrimAtPath s "/World/Ground") →
  is_Some (GetPrimAtPath s "/World/CatenaryWire") →
  (configure_writer;; capture_loop ExtractTranslation;; drain_and_close) (mkWorld s evs)
  = Returned tt
      (mkWorld (labelled s)
         (evs ++ session_events (ExtractTranslation (labelled s) left_path)
                   (ExtractTranslation (labelled s) right_path))).
Proof.
  intros Hl Hr Hp Hg Hc.
  rewrite bind_run, configure_writer_events by done.
  rewrite bind_run, capture_loop_events by by apply labelled_still_valid.
  rewrite drain_and_close_events.
  unfold session_events. by rewrite <- !app_assoc.
Qed.

Lemma configure_writer_raises (s : Stage) (evs : list Event) :
  GetPrimAtPath s "/World/Pantograph" = None
  ∨ GetPrimAtPath s "/World/Ground" = None
  ∨ GetPrimAtPath s "/World/CatenaryWire" = None →
  ∃ path,
    In path ["/World/Pantograph"; "/World/Ground"; "/World/CatenaryWire"] ∧
    GetPrimAtPath s path = None ∧
    configure_writer (mkWorld s evs)
    = Raised (RuntimeError ("Missing prim at " ++ path)%string) (evs ++ [new_layer]).
Proof.
  intros Hmiss. unfold configure_writer.
  rewrite bind_run. unfold emit at 1. cbn [stage events].
  destruct (GetPrimAtPath s "/World/Pantograph") as [pp |] eqn:Hp.
  2: { exists "/World/Pantograph". split; [simpl; auto |]. split; [done |].
       apply raised_bind. by apply set_semantic_label_missing. }
  rewrite bind_run, (set_semantic_label_valid _ _ pp) by done. cbn [stage events].
  destruct (GetPrimAtPath s "/World/Ground") as [pg |] eqn:Hg.
  2: { exists "/World/Ground". split; [simpl; auto |]. split; [done |].
       apply raised_bind. apply set_semantic_label_missing. cbn [stage].
       by rewrite label_prim_other by discriminate. }
  rewrite bind_run, (set_semantic_label_valid _ _ pg)
    by (cbn [stage]; by rewrite label_prim_other by discriminate).
  cbn [stage events].
  destruct (GetPrimAtPath s "/World/CatenaryWire") as [pc |] eqn:Hc.
  { by destruct Hmiss as [? | [? | ?]]. }
  exists "/World/CatenaryWire". split; [simpl; auto |]. split; [done |].
  apply raised_bind. apply set_semantic_label_missing. cbn [stage].
  by rewrite !label_prim_other by discriminate.
Qed.

(** X12.  When one of the three prims to label is missing, the script
    raises [RuntimeError] naming a missing prim.  By then it has asked
    for the output directory and the layer and nothing else: no render
    product, no writer, no capture step, no update, and no close. *)
Theorem main_raises_without_labelled_prim (s : Stage)
    (Hmiss : GetPrimAtPath s "/World/Pantograph" = None
             ∨ GetPrimAtPath s "/World/Ground" = None
             ∨ GetPrimAtPath s "/World/CatenaryWire" = None) :
  ∃ path evs,
    In path ["/World/Pantograph"; "/World/Ground"; "/World/CatenaryWire"] ∧
    GetPrimAtPath s path = None ∧
    run_main (Some s) = Raised (RuntimeError ("Missing prim at " ++ path)%string) evs ∧
    requests evs = [makedirs OUTPUT_DIR; new_layer].
Proof.
  destruct (setup_run ExtractTranslation GetRow3_0 0.12 (mkWorld s [makedirs OUTPUT_DIR]))
    as (evs0 & Hsetup & Hprints).
  cbn [stage events] in Hsetup.
  destruct (configure_writer_raises (rebased 0.12 s) ([makedirs OUTPUT_DIR] ++ evs0))
    as (path & Hin & Hnone & Hraise).
  { by rewrite !rebased_other by discriminate. }
  exists path, (([makedirs OUTPUT_DIR] ++ evs0) ++ [new_layer]).
  split; [done |]. split.
  { simpl in Hin. destruct Hin as [<- | [<- | [<- | []]]];
      by rewrite rebased_other in Hnone by discriminate. }
  split.
  - unfold main, capture. rewrite bind_run. unfold emit at 1. cbn [stage events app].
    rewrite bind_run.
    change (makedirs OUTPUT_DIR :: evs0) with ([makedirs OUTPUT_DIR] ++ evs0) in *.
    rewrite Hsetup. by apply raised_bind.
  - rewrite !requests_app, (requests_prints _ Hprints). reflexivity.
Qed.

(** X13.  When the two cameras and the three prims to label are
    there, the script returns and the final stage differs from the
    opened one only in the cameras and the labels: each of the three
    prims is the prim that was opened with its ["semantics:class"] set,
    every prim other than these three and the two cameras is untouched,
    and so are the up axis and the units. *)
Theorem main_final_stage (s : Stage) (pp pg pc : Prim)
    (Hl : is_Some (GetPrimAtPath s left_path))
    (Hr : is_Some (GetPrimAtPath s right_path))
    (Hp : GetPrimAtPath s "/World/Pantograph" = Some pp)
    (Hg : GetPrimAtPath s "/World/Ground" = Some pg)
    (Hc : GetPrimAtPath s "/World/CatenaryWire" = Some pc) :
  ∃ w,
    run_main (Some s) = Returned tt w ∧
    GetPrimAtPath (stage w) "/World/Pantograph"
      = Some (with_attr pp "semantics:class" (VToken "pantograph")) ∧
    GetPrimAtPath (stage w) "/World/Ground"
      = Some (with_attr pg "semantics:class" (VToken "ground")) ∧
    GetPrimAtPath (stage w) "/World/CatenaryWire"
      = Some (with_attr pc "semantics:class" (VToken "catenary")) ∧
    (∀ path,
       path ≠ left_path → path ≠ right_path →
       path ≠ "/World/Pantograph" → path ≠ "/World/Ground" →
       path ≠ "/World/CatenaryWire" →
       GetPrimAtPath (stage w) path = GetPrimAtPath s path) ∧
    upAxis (stage w) = upAxis s ∧
    metersPerUnit (stage w) = metersPerUnit s.
Proof.
  destruct (runs_capture ExtractTranslation GetRow3_0 s) as (evs & Hrun & _);
    try done; try by eexists.
  eexists. split; [exact Hrun |]. cbn [stage].
  destruct (labelled_labels (rebased 0.12 s) pp pg pc) as (Lp & Lg & Lc);
    try by rewrite rebased_other by discriminate.
  split; [exact Lp |]. split; [exact Lg |]. split; [exact Lc |].
  split.
  { intros path H1 H2 H3 H4 H5. rewrite labelled_other by done. by apply rebased_other. }
  destruct (labelled_units (rebased 0.12 s)) as [-> ->]. apply rebased_units.
Qed.

(** X14.  The complete output of a run on a stage that has the two
    cameras and the three prims to label, in order: the output
    directory; the lines of [setup_stereo_baseline]; the layer, the
    render products and the writer; the first capture step and update,
    followed by the two frame-0 lines, which give the distance between
    the cameras' world positions on the final stage; 29 more steps, each
    with its update, and no further frame-0 line; 5 updates, the last
    line, the close. *)
Theorem main_trace (s : Stage)
    (Hl : is_Some (GetPrimAtPath s left_path))
    (Hr : is_Some (GetPrimAtPath s right_path))
    (Hp : is_Some (GetPrimAtPath s "/World/Pantograph"))
    (Hg : is_Some (GetPrimAtPath s "/World/Ground"))
    (Hc : is_Some (GetPrimAtPath s "/World/CatenaryWire")) :
  let s1 := rebased 0.12 s in
  let s2 := labelled s1 in
  run_main (Some s)
  = Returned tt
      (mkWorld s2
         ([makedirs OUTPUT_DIR]
          ++ setup_lines 0.12 (GetRow3_0 s1 "/World/StereoCameraRig")
               (Some (ExtractTranslation s1 "/World/Pantograph"))
          ++ session_events (ExtractTranslation s2 left_path)
               (ExtractTranslation s2 right_path))).
Proof.
  cbv zeta. unfold main, capture.
  rewrite bind_run. unfold emit at 1. cbn [stage events app].
  rewrite bind_run.
  pose proof (setup_report ExtractTranslation GetRow3_0 0.12
                (mkWorld s [makedirs OUTPUT_DIR]) Hl Hr) as Hsetup.
  cbv zeta in Hsetup. cbn [stage events] in Hsetup. rewrite Hsetup.
  destruct (rebased_still_valid 0.12 s "/World/Pantograph" Hp) as [pp' Hpp'].
  rewrite Hpp'. cbn [IsValid].
  rewrite session_events_run by by apply rebased_still_valid.
  unfold setup_lines. by rewrite <- !app_assoc.
Qed.

(** X15.  The two scripts fit together: on the scene the scene builder
    exports, whatever the simulator's transforms, the capture script
    runs to its end without a warning, its [setup_stereo_baseline]
    changes nothing (the cameras are already 0.12 apart), and the final
    stage is the exported scene with the three labels. *)
Theorem capture_accepts_built_scene :
  run_main (Some SceneBuilder.scene)
  = Returned tt
      (mkWorld (labelled SceneBuilder.scene)
         ([makedirs OUTPUT_DIR]
          ++ setup_lines 0.12 (GetRow3_0 SceneBuilder.scene "/World/StereoCameraRig")
               (Some (ExtractTranslation SceneBuilder.scene "/World/Pantograph"))
          ++ session_events (ExtractTranslation (labelled SceneBuilder.scene) left_path)
               (ExtractTranslation (labelled SceneBuilder.scene) right_path))).
Proof.
  assert (Hsame : rebased 0.12 SceneBuilder.scene = SceneBuilder.scene).
  { apply rebased_same.
    - transitivity (Some (Gf.mkVec3d (- SceneBuilder.BASELINE_M / 2) 0 0));
        [reflexivity |]. do 2 f_equal. unfold SceneBuilder.BASELINE_M. lra.
    - transitivity (Some (Gf.mkVec3d (SceneBuilder.BASELINE_M / 2) 0 0));
        [reflexivity |]. do 2 f_equal. }
  rewrite main_trace; try (apply is_Some_IsValid; reflexivity).
  cbv zeta. by rewrite Hsame.
Qed.

(** X16.  A missing camera is fatal at frame 0.  When a camera prim is
    missing and the three prims to label are there, the script prints
    the warning, sets up the render products and the writer, issues one
    capture step and one update, and then raises at the frame-0 check:
    it prints no frame-0 line, issues no further step or update, and
    does not close the application. *)
Theorem main_raises_at_frame0_without_camera (s : Stage)
    (Hcam : GetPrimAtPath s left_path = None ∨ GetPrimAtPath s right_path = None)
    (Hp : is_Some (GetPrimAtPath s "/World/Pantograph"))
    (Hg : is_Some (GetPrimAtPath s "/World/Ground"))
    (Hc : is_Some (GetPrimAtPath s "/World/CatenaryWire")) :
  run_main (Some s)
  = Raised (RuntimeError "Accessed schema on invalid prim")
      [ makedirs OUTPUT_DIR; print WarnNoCameras; new_layer;
        render_product left_path RESOLUTION; render_product right_path RESOLUTION;
        writer_get "BasicWriter"; writer_initialize OUTPUT_DIR true true true;
        writer_attach [left_path; right_path];
        orchestrator_step; app_update ].
Proof.
  unfold main, capture.
  rewrite bind_run. unfold emit at 1. cbn [stage events app].
  rewrite bind_run, setup_run_missing by done. cbn [stage events app].
  rewrite bind_run, configure_writer_events by done.
  apply raised_bind. rewrite capture_loop_raises; [reflexivity |].
  destruct Hcam as [H | H]; [left | right];
    by rewrite labelled_other by discriminate.
Qed.

End Main.

End MainFacts.

(** ** More about the scene builder *)

Module SceneMore.

Import SceneBuilder CaptureFacts.
#[local] Open Scope R_scope.

Lemma wire_points_lookup (i : nat) :
  (i ≤ 20)%nat → wire_points !! i = Some (wire_point i).
Proof.
  intros Hi. rewrite SceneFacts.wire_points_map, list_lookup_fmap.
  by rewrite lookup_seq_lt by lia.
Qed.

Lemma wire_point_x (i : nat) : (wire_point i).1.1 = (INR i - 10) * 0.3.
Proof. unfold wire_point. simpl. by rewrite minus_IZR, <- INR_IZR_INZ. Qed.

(** X17.  The catenary wire the scene builder samples: for every index
    up to 20 the point has x = -3 + 0.3 i, which lies in [-3, 3], y = 0
    and z = 1.8 + 0.02 x^2, which lies in [1.8, 1.98], so the wire never
    dips below 1.8 m; and the wire is symmetric about x = 0: the point
    at index 20 - i has the opposite x and the same z. *)
Theorem wire_points_shape (i : nat) (Hi : (i ≤ 20)%nat) :
  ∃ x z,
    wire_points !! i = Some (x, 0, z) ∧
    x = -3 + 0.3 * INR i ∧
    -3 <= x <= 3 ∧
    z = 1.8 + 0.02 * (x * x) ∧
    1.8 <= z <= 1.98 ∧
    wire_points !! (20 - i)%nat = Some (- x, 0, z).
Proof.
  assert (H0 : 0 <= INR i) by apply pos_INR.
  assert (H20 : INR i <= 20).
  { replace 20 with (INR 20) by (simpl; lra). by apply le_INR. }
  set (x := (INR i - 10) * 0.3).
  assert (Hx : -3 <= x <= 3) by (unfold x; lra).
  assert (Hsq : 0 <= x * x) by apply Rle_0_sqr.
  assert (Hsq9 : x * x <= 9).
  { assert (0 <= (3 - x) * (x + 3)) by (apply Rmult_le_pos; lra). lra. }
  exists x, (1.8 + 0.02 * (x * x)).
  split.
  { rewrite wire_points_lookup by done. f_equal. unfold wire_point.
    rewrite minus_IZR, <- INR_IZR_INZ. fold x. do 2 f_equal. simpl. ring. }
  split; [unfold x; lra |]. split; [done |]. split; [done |].
  split; [lra |].
  rewrite wire_points_lookup by lia. f_equal. unfold wire_point.
  rewrite minus_IZR, <- INR_IZR_INZ, minus_INR by done.
  replace (INR 20) with 20 by (simpl; lra).
  replace ((20 - INR i - 10) * 0.3) with (- x) by (unfold x; lra).
  do 2 f_equal. simpl. ring.
Qed.

(** X17, at index 7. *)
Lemma wire_points_shape_witness :
  (7 ≤ 20)%nat ∧
  ∃ x z,
    wire_points !! 7%nat = Some (x, 0, z) ∧
    x = -3 + 0.3 * INR 7 ∧
    -3 <= x <= 3 ∧
    z = 1.8 + 0.02 * (x * x) ∧
    1.8 <= z <= 1.98 ∧
    wire_points !! (20 - 7)%nat = Some (- x, 0, z).
Proof.
  assert (H : (7 ≤ 20)%nat) by lia.
  split; [exact H |]. exact (wire_points_shape 7 H).
Defined.

Lemma on_prim_set_prim (path : string) (f : Prim → Prim) (s : Stage) (p : Prim) :
  on_prim path f (set_prim s path p) = set_prim s path (f p).
Proof. unfold on_prim. by rewrite GetPrimAtPath_set_prim_eq, set_prim_twice. Qed.

Lemma place_camera_fresh (path : string) (offset : R) (s : Stage) :
  GetPrimAtPath s path = None →
  place_camera path offset s
  = set_prim s path
      (mkPrim "Camera" [mkXformOp TypeTranslate (Some (Gf.mkVec3d offset 0 0))]
         (<["clippingRange" := VVec2f (Gf.mkVec2f 0.1 100.0)]>
            (<["focalLength" := VFloat 3.5]>
               (<["verticalAperture" := VFloat 3.888]>
                  (<["horizontalAperture" := VFloat 6.912]> ∅))))
         []).
Proof.
  intros Hfresh. unfold place_camera, Define. rewrite Hfresh.
  by rewrite !on_prim_set_prim.
Qed.

(** X18.  Two cameras placed by the scene builder on free paths are the
    same camera but for the x offset: same type, same attributes (focal
    length 3.5, apertures 6.912 and 3.888, clipping range 0.1 to 100),
    no reference, and one transform op each, a translate op holding the
    camera's own offset; and placing them leaves every other prim as it
    was. *)
Theorem place_camera_pair (s : Stage) (path1 path2 : string) (offset1 offset2 : R)
    (Hne : path1 ≠ path2)
    (H1 : GetPrimAtPath s path1 = None)
    (H2 : GetPrimAtPath s path2 = None) :
  let s' := place_camera path2 offset2 (place_camera path1 offset1 s) in
  ∃ c1 c2,
    GetPrimAtPath s' path1 = Some c1 ∧
    GetPrimAtPath s' path2 = Some c2 ∧
    typeName c1 = "Camera" ∧ typeName c2 = "Camera" ∧
    attributes c1 = attributes c2 ∧
    attributes c1 !! "focalLength" = Some (VFloat 3.5) ∧
    attributes c1 !! "horizontalAperture" = Some (VFloat 6.912) ∧
    attributes c1 !! "verticalAperture" = Some (VFloat 3.888) ∧
    attributes c1 !! "clippingRange" = Some (VVec2f (Gf.mkVec2f 0.1 100.0)) ∧
    references c1 = [] ∧ references c2 = [] ∧
    xformOps c1 = [mkXformOp TypeTranslate (Some (Gf.mkVec3d offset1 0 0))] ∧
    xformOps c2 = [mkXformOp TypeTranslate (Some (Gf.mkVec3d offset2 0 0))] ∧
    ∀ path, path ≠ path1 → path ≠ path2 → GetPrimAtPath s' path = GetPrimAtPath s path.
Proof.
  cbv zeta. rewrite (place_camera_fresh path1 offset1 s H1).
  rewrite place_camera_fresh by by rewrite GetPrimAtPath_set_prim_ne.
  eexists _, _.
  split; [rewrite GetPrimAtPath_set_prim_ne by done; apply GetPrimAtPath_set_prim_eq |].
  split; [apply GetPrimAtPath_set_prim_eq |]. simpl.
  repeat split; try reflexivity.
  intros path Hp1 Hp2. by rewrite !GetPrimAtPath_set_prim_ne.
Qed.

(** X18, on the empty stage with the scene builder's paths and offsets. *)
Lemma place_camera_pair_witness :
  "/World/StereoCameraRig/LeftCamera" ≠ "/World/StereoCameraRig/RightCamera" ∧
  GetPrimAtPath new_stage "/World/StereoCameraRig/LeftCamera" = None ∧
  GetPrimAtPath new_stage "/World/StereoCameraRig/RightCamera" = None ∧
  ∃ c1 c2,
    GetPrimAtPath
      (place_camera "/World/StereoCameraRig/RightCamera" 0.06
         (place_camera "/World/StereoCameraRig/LeftCamera" (-0.06) new_stage))
      "/World/StereoCameraRig/LeftCamera" = Some c1 ∧
    GetPrimAtPath
      (place_camera "/World/StereoCameraRig/RightCamera" 0.06
         (place_camera "/World/StereoCameraRig/LeftCamera" (-0.06) new_stage))
      "/World/StereoCameraRig/RightCamera" = Some c2 ∧
    attributes c1 = attributes c2.
Proof.
  assert (Hne : "/World/StereoCameraRig/LeftCamera" ≠ "/World/StereoCameraRig/RightCamera")
    by discriminate.
  assert (H1 : GetPrimAtPath new_stage "/World/StereoCameraRig/LeftCamera" = None)
    by reflexivity.
  assert (H2 : GetPrimAtPath new_stage "/World/StereoCameraRig/RightCamera" = None)
    by reflexivity.
  split; [exact Hne |]. split; [exact H1 |]. split; [exact H2 |].
  destruct (place_camera_pair new_stage _ _ (-0.06) 0.06 Hne H1 H2)
    as (c1 & c2 & Ha & Hb & _ & _ & Hc & _).
  exists c1, c2. repeat split; assumption.
Defined.

End SceneMore.

(** ** The further properties at concrete stages *)

Module MoreWitnesses.

Import Capture Summary Traces Examples CaptureFacts.
#[local] Open Scope R_scope.

#[local] Abbreviation flat_setup := (setup_stereo_baseline flat_translation flat_row0).
#[local] Abbreviation flat_main := (main flat_translation flat_row0).

(** X2, on the left camera of the small rig. *)
Lemma setup_keeps_camera_witness :
  is_Some (GetPrimAtPath (stage (mkWorld small_rig [])) left_path) ∧
  is_Some (GetPrimAtPath (stage (mkWorld small_rig [])) right_path) ∧
  (left_path = left_path ∨ left_path = right_path) ∧
  GetPrimAtPath (stage (mkWorld small_rig [])) left_path = Some rotated_camera ∧
  ∃ w' p',
    flat_setup 0.12 (mkWorld small_rig []) = Returned tt w' ∧
    GetPrimAtPath (stage w') left_path = Some p' ∧
    typeName p' = typeName rotated_camera ∧
    attributes p' = attributes rotated_camera ∧
    references p' = references rotated_camera ∧
    ∀ j, find_translate (xformOps p') ≠ Some j →
         xformOps p' !! j = xformOps rotated_camera !! j.
Proof.
  assert (H1 : is_Some (GetPrimAtPath (stage (mkWorld small_rig [])) left_path))
    by (apply is_Some_IsValid; reflexivity).
  assert (H2 : is_Some (GetPrimAtPath (stage (mkWorld small_rig [])) right_path))
    by (apply is_Some_IsValid; reflexivity).
  assert (H3 : left_path = left_path ∨ left_path = right_path) by (left; reflexivity).
  assert (H4 : GetPrimAtPath (stage (mkWorld small_rig [])) left_path = Some rotated_camera)
    by reflexivity.
  repeat (split; [assumption |]).
  exact (SetupFrame.setup_keeps_camera_but_first_translate flat_translation flat_row0
           0.12 (mkWorld small_rig []) left_path rotated_camera H1 H2 H3 H4).
Defined.

(** X3, on the right camera of the small rig, which has no translate op. *)
Lemma setup_adds_at_most_one_op_witness :
  is_Some (GetPrimAtPath (stage (mkWorld small_rig [])) left_path) ∧
  is_Some (GetPrimAtPath (stage (mkWorld small_rig [])) right_path) ∧
  (right_path = left_path ∨ right_path = right_path) ∧
  GetPrimAtPath (stage (mkWorld small_rig [])) right_path = Some rotated_camera ∧
  ∃ w' p',
    flat_setup 0.12 (mkWorld small_rig []) = Returned tt w' ∧
    GetPrimAtPath (stage w') right_path = Some p' ∧
    (is_Some (find_translate (xformOps rotated_camera)) →
       length (xformOps p') = length (xformOps rotated_camera) ∧
       GetOpType <$> xformOps p' = GetOpType <$> xformOps rotated_camera) ∧
    (find_translate (xformOps rotated_camera) = None →
       ∃ v, xformOps p' = xformOps rotated_camera ++ [mkXformOp TypeTranslate (Some v)]).
Proof.
  assert (H1 : is_Some (GetPrimAtPath (stage (mkWorld small_rig [])) left_path))
    by (apply is_Some_IsValid; reflexivity).
  assert (H2 : is_Some (GetPrimAtPath (stage (mkWorld small_rig [])) right_path))
    by (apply is_Some_IsValid; reflexivity).
  assert (H3 : right_path = left_path ∨ right_path = right_path) by (right; reflexivity).
  assert (H4 : GetPrimAtPath (stage (mkWorld small_rig [])) right_path = Some rotated_camera)
    by reflexivity.
  repeat (split; [assumption |]).
  exact (SetupFrame.setup_adds_at_most_one_op flat_translation flat_row0
           0.12 (mkWorld small_rig []) right_path rotated_camera H1 H2 H3 H4).
Defined.

(** X4, on the exported scene with the script's baseline. *)
Lemma setup_changes_nothing_witness :
  let w := mkWorld SceneBuilder.scene [] in
  local_pos (stage w) left_path = Some (Gf.mkVec3d (- (0.12 / 2)) 0 0) ∧
  local_pos (stage w) right_path = Some (Gf.mkVec3d (0.12 / 2) 0 0) ∧
  ∃ evs,
    flat_setup 0.12 w = Returned tt (mkWorld (stage w) (events w ++ evs)) ∧
    forallb is_print evs = true.
Proof.
  intros w.
  assert (H1 : local_pos (stage w) left_path = Some (Gf.mkVec3d (- (0.12 / 2)) 0 0)).
  { transitivity (Some (Gf.mkVec3d (- SceneBuilder.BASELINE_M / 2) 0 0));
      [reflexivity |]. do 2 f_equal. unfold SceneBuilder.BASELINE_M. lra. }
  assert (H2 : local_pos (stage w) right_path = Some (Gf.mkVec3d (0.12 / 2) 0 0)).
  { transitivity (Some (Gf.mkVec3d (SceneBuilder.BASELINE_M / 2) 0 0));
      [reflexivity |]. reflexivity. }
  split; [exact H1 |]. split; [exact H2 |].
  exact (SetupCompose.setup_changes_nothing_at_baseline flat_translation flat_row0
           0.12 w H1 H2).
Defined.

(** X6, on the small rig with the script's baseline. *)
Lemma setup_realises_baseline_witness :
  is_Some (GetPrimAtPath (stage (mkWorld small_rig [])) left_path) ∧
  is_Some (GetPrimAtPath (stage (mkWorld small_rig [])) right_path) ∧
  ∃ w' l r,
    flat_setup 0.12 (mkWorld small_rig []) = Returned tt w' ∧
    local_pos (stage w') left_path = Some l ∧
    local_pos (stage w') right_path = Some r ∧
    dist l r = Rabs 0.12 ∧
    (0 <= 0.12 → dist l r = 0.12).
Proof.
  assert (H1 : is_Some (GetPrimAtPath (stage (mkWorld small_rig [])) left_path))
    by (apply is_Some_IsValid; reflexivity).
  assert (H2 : is_Some (GetPrimAtPath (stage (mkWorld small_rig [])) right_path))
    by (apply is_Some_IsValid; reflexivity).
  repeat (split; [assumption |]).
  exact (SetupCompose.setup_realises_baseline flat_translation flat_row0
           0.12 (mkWorld small_rig []) H1 H2).
Defined.

(** X7, on the small rig with the script's baseline. *)
Lemma setup_report_witness :
  is_Some (GetPrimAtPath (stage (mkWorld small_rig [])) left_path) ∧
  is_Some (GetPrimAtPath (stage (mkWorld small_rig [])) right_path) ∧
  ∃ w', flat_setup 0.12 (mkWorld small_rig []) = Returned tt w'
        ∧ stage w' = rebased 0.12 small_rig.
Proof.
  assert (H1 : is_Some (GetPrimAtPath (stage (mkWorld small_rig [])) left_path))
    by (apply is_Some_IsValid; reflexivity).
  assert (H2 : is_Some (GetPrimAtPath (stage (mkWorld small_rig [])) right_path))
    by (apply is_Some_IsValid; reflexivity).
  repeat (split; [assumption |]).
  eexists. split.
  - exact (SetupCompose.setup_report flat_translation flat_row0
             0.12 (mkWorld small_rig []) H1 H2).
  - reflexivity.
Defined.

(** X10, on the ground prim of the stage without cameras. *)
Lemma set_semantic_label_witness :
  GetPrimAtPath (stage (mkWorld targets_only [])) "/World/Ground" = Some (bare "Mesh") ∧
  ∃ s' p',
    set_semantic_label "/World/Ground" "ground" (mkWorld targets_only [])
    = Returned tt (mkWorld s' []) ∧
    GetPrimAtPath s' "/World/Ground" = Some p' ∧
    attributes p' !! "semantics:class" = Some (VToken "ground").
Proof.
  assert (H1 : GetPrimAtPath (stage (mkWorld targets_only [])) "/World/Ground"
               = Some (bare "Mesh")) by reflexivity.
  split; [exact H1 |].
  destruct (LabelFacts.set_semantic_label_sets_only_the_label
              "/World/Ground" "ground" (mkWorld targets_only []) (bare "Mesh") H1)
    as (s' & p' & Ha & Hb & Hc & _).
  exists s', p'. repeat split; assumption.
Defined.

(** X11, labelling the ground prim twice. *)
Lemma set_semantic_label_twice_witness :
  is_Some (GetPrimAtPath (stage (mkWorld targets_only [])) "/World/Ground") ∧
  ∃ w1 w12 w2,
    set_semantic_label "/World/Ground" "floor" (mkWorld targets_only []) = Returned tt w1 ∧
    set_semantic_label "/World/Ground" "ground" w1 = Returned tt w12 ∧
    set_semantic_label "/World/Ground" "ground" (mkWorld targets_only []) = Returned tt w2 ∧
    w12 = w2.
Proof.
  assert (H1 : is_Some (GetPrimAtPath (stage (mkWorld targets_only [])) "/World/Ground"))
    by (apply is_Some_IsValid; reflexivity).
  split; [exact H1 |].
  exact (LabelFacts.set_semantic_label_last_label_wins
           "/World/Ground" "floor" "ground" (mkWorld targets_only []) H1).
Defined.

(** X12, on the empty stage. *)
Lemma main_raises_witness :
  (GetPrimAtPath SceneBuilder.new_stage "/World/Pantograph" = None
   ∨ GetPrimAtPath SceneBuilder.new_stage "/World/Ground" = None
   ∨ GetPrimAtPath SceneBuilder.new_stage "/World/CatenaryWire" = None) ∧
  ∃ path evs,
    In path ["/World/Pantograph"; "/World/Ground"; "/World/CatenaryWire"] ∧
    GetPrimAtPath SceneBuilder.new_stage path = None ∧
    flat_main (Some SceneBuilder.new_stage)
    = Raised (RuntimeError ("Missing prim at " ++ path)%string) evs ∧
    requests evs = [makedirs OUTPUT_DIR; new_layer].
Proof.
  assert (H1 : GetPrimAtPath SceneBuilder.new_stage "/World/Pantograph" = None
               ∨ GetPrimAtPath SceneBuilder.new_stage "/World/Ground" = None
               ∨ GetPrimAtPath SceneBuilder.new_stage "/World/CatenaryWire" = None)
    by (left; reflexivity).
  split; [exact H1 |].
  exact (MainFacts.main_raises_without_labelled_prim flat_translation flat_row0
           SceneBuilder.new_stage H1).
Defined.

(** X13, on the small rig. *)
Lemma main_final_stage_witness :
  is_Some (GetPrimAtPath small_rig left_path) ∧
  is_Some (GetPrimAtPath small_rig right_path) ∧
  GetPrimAtPath small_rig "/World/Pantograph" = Some (bare "Xform") ∧
  GetPrimAtPath small_rig "/World/Ground" = Some (bare "Mesh") ∧
  GetPrimAtPath small_rig "/World/CatenaryWire" = Some (bare "BasisCurves") ∧
  ∃ w,
    flat_main (Some small_rig) = Returned tt w ∧
    GetPrimAtPath (stage w) "/World/Pantograph"
      = Some (with_attr (bare "Xform") "semantics:class" (VToken "pantograph")) ∧
    GetPrimAtPath (stage w) "/World/Ground"
      = Some (with_attr (bare "Mesh") "semantics:class" (VToken "ground")) ∧
    GetPrimAtPath (stage w) "/World/CatenaryWire"
      = Some (with_attr (bare "BasisCurves") "semantics:class" (VToken "catenary")).
Proof.
  assert (Hl : is_Some (GetPrimAtPath small_rig left_path))
    by (apply is_Some_IsValid; reflexivity).
  assert (Hr : is_Some (GetPrimAtPath small_rig right_path))
    by (apply is_Some_IsValid; reflexivity).
  assert (H1 : GetPrimAtPath small_rig "/World/Pantograph" = Some (bare "Xform"))
    by reflexivity.
  assert (H2 : GetPrimAtPath small_rig "/World/Ground" = Some (bare "Mesh"))
    by reflexivity.
  assert (H3 : GetPrimAtPath small_rig "/World/CatenaryWire" = Some (bare "BasisCurves"))
    by reflexivity.
  split; [exact Hl |]. split; [exact Hr |].
  split; [exact H1 |]. split; [exact H2 |]. split; [exact H3 |].
  destruct (MainFacts.main_final_stage flat_translation flat_row0 small_rig
              _ _ _ Hl Hr H1 H2 H3) as (w & Ha & Hb & Hc & Hd & _).
  exists w. repeat split; assumption.
Defined.

(** X14, on the small rig. *)
Lemma main_trace_witness :
  is_Some (GetPrimAtPath small_rig left_path) ∧
  is_Some (GetPrimAtPath small_rig right_path) ∧
  is_Some (GetPrimAtPath small_rig "/World/Pantograph") ∧
  is_Some (GetPrimAtPath small_rig "/World/Ground") ∧
  is_Some (GetPrimAtPath small_rig "/World/CatenaryWire") ∧
  ∃ w, flat_main (Some small_rig) = Returned tt w
       ∧ stage w = labelled (rebased 0.12 small_rig).
Proof.
  assert (H1 : is_Some (GetPrimAtPath small_rig left_path))
    by (apply is_Some_IsValid; reflexivity).
  assert (H2 : is_Some (GetPrimAtPath small_rig right_path))
    by (apply is_Some_IsValid; reflexivity).
  assert (H3 : is_Some (GetPrimAtPath small_rig "/World/Pantograph"))
    by (apply is_Some_IsValid; reflexivity).
  assert (H4 : is_Some (GetPrimAtPath small_rig "/World/Ground"))
    by (apply is_Some_IsValid; reflexivity).
  assert (H5 : is_Some (GetPrimAtPath small_rig "/World/CatenaryWire"))
    by (apply is_Some_IsValid; reflexivity).
  repeat (split; [assumption |]).
  eexists. split.
  - exact (MainFacts.main_trace flat_translation flat_row0 small_rig H1 H2 H3 H4 H5).
  - reflexivity.
Defined.

(** X16, on the stage without cameras. *)
Lemma main_raises_at_frame0_witness :
  (GetPrimAtPath targets_only left_path = None
   ∨ GetPrimAtPath targets_only right_path = None) ∧
  is_Some (GetPrimAtPath targets_only "/World/Pantograph") ∧
  is_Some (GetPrimAtPath targets_only "/World/Ground") ∧
  is_Some (GetPrimAtPath targets_only "/World/CatenaryWire") ∧
  flat_main (Some targets_only)
  = Raised (RuntimeError "Accessed schema on invalid prim")
      [ makedirs OUTPUT_DIR; print WarnNoCameras; new_layer;
        render_product left_path RESOLUTION; render_product right_path RESOLUTION;
        writer_get "BasicWriter"; writer_initialize OUTPUT_DIR true true true;
        writer_attach [left_path; right_path];
        orchestrator_step; app_update ].
Proof.
  assert (H1 : GetPrimAtPath targets_only left_path = None
               ∨ GetPrimAtPath targets_only right_path = None) by (left; reflexivity).
  assert (H3 : is_Some (GetPrimAtPath targets_only "/World/Pantograph"))
    by (apply is_Some_IsValid; reflexivity).
  assert (H4 : is_Some (GetPrimAtPath targets_only "/World/Ground"))
    by (apply is_Some_IsValid; reflexivity).
  assert (H5 : is_Some (GetPrimAtPath targets_only "/World/CatenaryWire"))
    by (apply is_Some_IsValid; reflexivity).
  split; [exact H1 |]. split; [exact H3 |]. split; [exact H4 |]. split; [exact H5 |].
  exact (MainFacts.main_raises_at_frame0_without_camera flat_translation flat_row0
           targets_only H1 H3 H4 H5).
Defined.

End MoreWitnesses.

(** ** Which op [setup_stereo_baseline] writes, and the pose that results *)

Module PoseFacts.

Import Capture Summary Poses CaptureFacts SetupFrame MainFacts.
#[local] Open Scope R_scope.







Section Pose.

Context (ExtractTranslation GetRow3_0 : Stage → string → Gf.Vec3d).

#[local] Abbreviation setup := (setup_stereo_baseline ExtractTranslation GetRow3_0).
#[local] Abbreviation run_main := (main ExtractTranslation GetRow3_0).


End Pose.



End PoseFacts.
